(** * Export Master: Image Extractor -- the plugin thread (src/code.ts)

    A shallow embedding of the main plugin thread: the operation manager,
    the format sniffer, the file-name sanitizer, the tree scanner and the
    batch fetcher, followed by the properties the specification states
    about them.

    Conventions.
    - A JavaScript string is the list of its UTF-16 code units ([list N]).
    - [Date.now()] and the host document are inputs: a clock reading is a
      [Z], host calls are answered by an oracle.
    - The plugin thread is single-threaded: [currentOperation] can only
      change while the running function is suspended at an [await].  The
      state other handlers leave behind is read from an oracle indexed by
      the suspension points passed so far.
    - Messages posted to the UI and [figma.notify] toasts are collected, in
      order, in a trace.  [console.warn]/[console.error] diagnostics are
      not part of the trace. *)

From Stdlib Require Import ZArith NArith QArith Qminmax Qround Strings.String Strings.Ascii Strings.Byte.
From Stdlib Require Import Numbers.DecimalN.
From stdpp Require Import gmap list.

Local Open Scope N_scope.

(** ** JavaScript strings *)

Abbreviation jsstring := (list N).

Definition js (s : string) : jsstring :=
  List.map N_of_ascii (list_ascii_of_string s).

(** Digits of a decimal numeral, most significant first, as code units. *)
Fixpoint uint_units (d : Decimal.uint) : jsstring :=
  match d with
  | Decimal.Nil => []
  | Decimal.D0 d => 48 :: uint_units d
  | Decimal.D1 d => 49 :: uint_units d
  | Decimal.D2 d => 50 :: uint_units d
  | Decimal.D3 d => 51 :: uint_units d
  | Decimal.D4 d => 52 :: uint_units d
  | Decimal.D5 d => 53 :: uint_units d
  | Decimal.D6 d => 54 :: uint_units d
  | Decimal.D7 d => 55 :: uint_units d
  | Decimal.D8 d => 56 :: uint_units d
  | Decimal.D9 d => 57 :: uint_units d
  end.

(** [String(n)] / template interpolation of a non-negative integer. *)
Definition numberToString (n : N) : jsstring := uint_units (N.to_uint n).

(** [s.startsWith(p)] *)
Fixpoint startsWith (p s : jsstring) : bool :=
  match p, s with
  | [], _ => true
  | _ :: _, [] => false
  | a :: p', b :: s' => (a =? b) && startsWith p' s'
  end.

(** [s.includes(p)] *)
Fixpoint includes (s p : jsstring) : bool :=
  startsWith p s ||
  match s with
  | [] => false
  | _ :: s' => includes s' p
  end.

(** ** Configuration *)

Module CONFIG.
Definition BATCH_SIZE : nat := 10.
Definition SCAN_CHUNK_SIZE : nat := 100.
Definition UPDATE_INTERVAL_MS : Z := 100.
Definition MAX_FILE_SIZE : N := 100 * 1024 * 1024.
Definition MIN_ETA_SAMPLES : N := 5.
Definition MAX_RETRY_ATTEMPTS : nat := 3.
Definition RETRY_DELAY_MS : N := 100.
End CONFIG.

(** ** Interfaces *)

Record FoundImageInfo := mkFound {
  hash : jsstring;
  name : jsstring;
  frame : jsstring
}.

Inductive ImageFormat := JPG | PNG | WEBP | GIF | bin.

(** A [Uint8Array]: its length and its content by index.  Reading at or
    past [u8_length] gives [undefined] ([None]). *)
Record Uint8Array := mkU8 {
  u8_length : N;
  u8_at : N -> byte
}.

Definition u8_get (b : Uint8Array) (i : N) : option byte :=
  if i <? u8_length b then Some (u8_at b i) else None.

Definition Uint8Array_of_list (l : list byte) : Uint8Array :=
  {| u8_length := N.of_nat (length l);
     u8_at := fun i => List.nth (N.to_nat i) l x00 |}.

Record FetchedImageInfo := mkFetched {
  f_hash : jsstring;
  f_name : jsstring;
  f_frame : jsstring;
  f_bytes : Uint8Array;
  f_format : ImageFormat;
  f_size : N;
  f_width : N;
  f_height : N
}.

(** ** OperationManager *)

Record OperationManager := mkOp {
  id : Z;
  cancelled : bool
}.

Module Op.
Definition init : OperationManager := {| id := 0; cancelled := false |}.

(** [start()]: [now] is the value [Date.now()] returns. *)
Definition start (now : Z) (m : OperationManager) : Z * OperationManager :=
  (now, {| id := now; cancelled := false |}).

Definition cancel (m : OperationManager) : OperationManager :=
  {| id := id m; cancelled := true |}.

Definition isActive (m : OperationManager) (opId : Z) : bool :=
  negb (cancelled m) && (id m =? opId)%Z.
End Op.

(** ** Helper functions *)

(** [bytes[i] === b] *)
Definition byteIs (o : option byte) (b : byte) : bool :=
  match o with
  | Some x => Byte.eqb x b
  | None => false
  end.

Definition detectImageFormat (bytes : Uint8Array) : ImageFormat :=
  if u8_length bytes <? 4 then bin
  else if byteIs (u8_get bytes 0) x89 && byteIs (u8_get bytes 1) x50 then PNG
  else if byteIs (u8_get bytes 0) xff && byteIs (u8_get bytes 1) xd8 then JPG
  else if byteIs (u8_get bytes 0) x52 && byteIs (u8_get bytes 1) x49 then WEBP
  else if byteIs (u8_get bytes 0) x47 && byteIs (u8_get bytes 1) x49 then GIF
  else bin.

(** The character class of the regular expression: the control characters
    0x00-0x1f and the nine punctuation marks (less-than, greater-than, colon,
    double quote, slash, backslash, bar, question mark, star). *)
Definition illegalChar (c : N) : bool :=
  (c <=? 31) || existsb (N.eqb c) [60; 62; 58; 34; 47; 92; 124; 63; 42].

(** [.replace(/[...]/g, underscore)] *)
Definition replaceIllegal (s : jsstring) : jsstring :=
  List.map (fun c => if illegalChar c then 95 else c) s.

(** ECMAScript WhiteSpace and LineTerminator code points, as removed by
    [String.prototype.trim]. *)
Definition isWhiteSpace (c : N) : bool :=
  existsb (N.eqb c)
    [9; 10; 11; 12; 13; 32; 160; 5760; 8232; 8233; 8239; 8287; 12288; 65279]
  || ((8192 <=? c) && (c <=? 8202)).

Fixpoint trimStart (s : jsstring) : jsstring :=
  match s with
  | [] => []
  | c :: s' => if isWhiteSpace c then trimStart s' else s
  end.

Definition trimEnd (s : jsstring) : jsstring := rev (trimStart (rev s)).

Definition trim (s : jsstring) : jsstring := trimEnd (trimStart s).

(** [.substring(0, n)] *)
Definition substring0 (n : nat) (s : jsstring) : jsstring := take n s.

(** [x || d] on strings: the empty string is falsy. *)
Definition orElse (x d : jsstring) : jsstring :=
  match x with
  | [] => d
  | _ => x
  end.

Definition sanitizeFileName (name : jsstring) : jsstring :=
  match name with
  | [] => js "image"
  | _ => orElse (substring0 255 (trim (replaceIllegal name))) (js "image")
  end.

(** [a === b] on strings *)
Definition strEq (a b : jsstring) : bool := bool_decide (a = b).

(** ** The host document *)

(** A paint of a fill or stroke list.  [imageHash] is [None] when the
    property is absent or [null]. *)
Record Paint := mkPaint {
  p_type : jsstring;
  imageHash : option jsstring
}.

#[local] Set Warnings "-register-all".

(** A scene node.  [fills] and [strokes] are [None] when the node has no
    such property or the property is not an array ([figma.mixed]);
    [children] is [None] when the node has no [children] property. *)
Inductive SceneNode := mkNode {
  n_name : jsstring;
  n_type : jsstring;
  fills : option (list Paint);
  strokes : option (list Paint);
  children : option (list SceneNode)
}.

(** What the ancestor walk reads of a node: its [type] and [name]. *)
Record BaseNode := mkBase {
  b_type : jsstring;
  b_name : jsstring
}.

(** A node together with its [parent] chain, nearest ancestor first; the
    chain ends where [parent] is [null]. *)
Record Located := mkLoc {
  node : SceneNode;
  parents : list BaseNode
}.

Definition baseOf (n : SceneNode) : BaseNode :=
  {| b_type := n_type n; b_name := n_name n |}.

Definition childrenOf (l : Located) : option (list Located) :=
  match children (node l) with
  | None => None
  | Some cs => Some (List.map (fun c => mkLoc c (baseOf (node l) :: parents l)) cs)
  end.

(** [figma.currentPage]: its name, its children and the current selection
    (nodes of the page, each with its parent chain). *)
Record PageNode := mkPage {
  page_name : jsstring;
  page_children : list SceneNode;
  selection : list Located
}.

Definition pageChildren (p : PageNode) : list Located :=
  List.map (fun c => mkLoc c [mkBase (js "PAGE") (page_name p)]) (page_children p).

(** ** Messages and effects *)

Inductive ScanMode := entire | selected.

Inductive ScanTotal := total_number (n : N) | total_many.

Inductive Eta := eta_label (s : jsstring) | eta_absent.

Inductive UiMessage :=
| selection_changed (count : N)
| scan_progress (phase : jsstring) (progress : Q) (current : N) (total : ScanTotal)
| scan_complete (images : list FoundImageInfo)
| download_progress (phase : jsstring) (progress : Q) (current : N) (total : N) (eta : Eta)
| download_start (downloadType : jsstring) (formats : list jsstring)
                 (renamePattern : jsstring) (totalImages : N)
| images_batch_ready (images : list FetchedImageInfo)
| download_finish
| operation_cancelled
| error (message : jsstring).

Inductive Effect :=
| Post (m : UiMessage)
| Notify (text : jsstring).

(** How a call ends: it returns, or it throws [new Error(message)]. *)
Inductive Completion :=
| Returned
| Threw (message : jsstring).

(** ** scanImages *)

(** [Map<string, FoundImageInfo>] in insertion order. *)
Abbreviation ImageMap := (list (jsstring * FoundImageInfo)).

Definition map_has (m : ImageMap) (k : jsstring) : bool :=
  existsb (fun e => strEq (fst e) k) m.

Fixpoint map_set (m : ImageMap) (k : jsstring) (v : FoundImageInfo) : ImageMap :=
  match m with
  | [] => [(k, v)]
  | e :: m' => if strEq (fst e) k then (k, v) :: m' else e :: map_set m' k v
  end.

Definition map_values (m : ImageMap) : list FoundImageInfo := List.map snd m.

Definition isContainerType (t : jsstring) : bool :=
  strEq t (js "FRAME") || strEq t (js "COMPONENT") ||
  strEq t (js "INSTANCE") || strEq t (js "COMPONENT_SET").

(** The [while (parent)] loop of [addUniqueImage], over the chain that
    starts at the node itself. *)
Fixpoint frameWalk (chain : list BaseNode) : jsstring :=
  match chain with
  | [] => js "Page"
  | p :: rest =>
      if isContainerType (b_type p) then sanitizeFileName (b_name p)
      else if strEq (b_type p) (js "PAGE") then js "Page"
      else frameWalk rest
  end.

(** [sanitizeFileName(node.name) || "image"] *)
Definition baseNameOf (n : Located) : jsstring :=
  orElse (sanitizeFileName (n_name (node n))) (js "image").

Definition suffixed (baseName : jsstring) (counter : N) : jsstring :=
  baseName ++ js "_" ++ numberToString counter.

(** The [while (existingNames.has(uniqueName))] loop.  [None] stands for a
    loop that has not ended within [fuel] iterations. *)
Fixpoint resolveName (fuel : nat) (existingNames : gset jsstring)
    (baseName uniqueName : jsstring) (counter : N) : option jsstring :=
  if bool_decide (uniqueName ∈ existingNames) then
    match fuel with
    | O => None
    | S fuel' =>
        resolveName fuel' existingNames baseName (suffixed baseName counter) (counter + 1)
    end
  else Some uniqueName.

Record Found := mkFoundSt {
  uniqueImages : ImageMap;
  existingNames : gset jsstring
}.

Definition addUniqueImage (mgr : OperationManager) (operationId : Z)
    (imageHash : jsstring) (n : Located) (st : Found) : option Found :=
  if negb (Op.isActive mgr operationId) || map_has (uniqueImages st) imageHash
  then Some st
  else
    let baseName := baseNameOf n in
    match resolveName (size (existingNames st)) (existingNames st) baseName baseName 1 with
    | None => None
    | Some uniqueName =>
        let frameName := frameWalk (baseOf (node n) :: parents n) in
        Some {| uniqueImages :=
                  map_set (uniqueImages st) imageHash
                          (mkFound imageHash uniqueName frameName);
                existingNames := {[ uniqueName ]} ∪ existingNames st |}
    end.

(** [f.type === "IMAGE" && f.imageHash]: the hash when the test is truthy. *)
Definition imageHashOf (p : Paint) : option jsstring :=
  if strEq (p_type p) (js "IMAGE") then
    match imageHash p with
    | Some (c :: h) => Some (c :: h)
    | _ => None
    end
  else None.

Definition processPaint (mgr : OperationManager) (operationId : Z) (n : Located)
    (p : Paint) (st : Found) : option Found :=
  match imageHashOf p with
  | Some h => addUniqueImage mgr operationId h n st
  | None => Some st
  end.

Fixpoint forEachPaint (mgr : OperationManager) (operationId : Z) (n : Located)
    (ps : list Paint) (st : Found) : option Found :=
  match ps with
  | [] => Some st
  | p :: ps' =>
      match processPaint mgr operationId n p st with
      | None => None
      | Some st' => forEachPaint mgr operationId n ps' st'
      end
  end.

(** One of the two safety-checked blocks of [checkNodeForImages]. *)
Definition checkPaints (mgr : OperationManager) (operationId : Z) (n : Located)
    (paints : option (list Paint)) (st : Found) : option Found :=
  match paints with
  | None => Some st
  | Some ps =>
      match List.find (fun f => bool_decide (is_Some (imageHashOf f))) ps with
      | None => Some st
      | Some _ => forEachPaint mgr operationId n ps st
      end
  end.

Definition checkNodeForImages (mgr : OperationManager) (operationId : Z)
    (n : Located) (st : Found) : option Found :=
  if negb (Op.isActive mgr operationId) then Some st
  else
    match checkPaints mgr operationId n (fills (node n)) st with
    | None => None
    | Some st' => checkPaints mgr operationId n (strokes (node n)) st'
    end.

(** What the scanner reads of its environment: the successive values of
    [Date.now()], and the state of [currentOperation] after each number of
    suspensions ([await yieldToMain()]) of the scan. *)
Record World := mkWorld {
  Date_now : nat -> Z;
  currentOperation : nat -> OperationManager
}.

(** The local variables of [scanImages].  The head of [stack] is the top of
    the stack, that is the last element of the array. *)
Record ScanState := mkScan {
  found : Found;
  scannedCount : N;
  stack : list Located;
  totalEstimated : N;
  lastUpdateTime : Z;
  reads : nat;
  yields : nat;
  trace : list Effect
}.

Definition Q_of_N (n : N) : Q := inject_Z (Z.of_N n).

(** The body of [for (const node of nodesToProcess)]. *)
Definition visit (mgr : OperationManager) (operationId : Z) (n : Located)
    (s : ScanState) : option ScanState :=
  match checkNodeForImages mgr operationId n (found s) with
  | None => None
  | Some f =>
      match childrenOf n with
      | Some cs =>
          Some (mkScan f (scannedCount s + 1) (cs ++ stack s)
                       (totalEstimated s + N.of_nat (length cs))
                       (lastUpdateTime s) (reads s) (yields s) (trace s))
      | None =>
          Some (mkScan f (scannedCount s + 1) (stack s) (totalEstimated s)
                       (lastUpdateTime s) (reads s) (yields s) (trace s))
      end
  end.

Fixpoint visitAll (mgr : OperationManager) (operationId : Z)
    (nodesToProcess : list Located) (s : ScanState) : option ScanState :=
  match nodesToProcess with
  | [] => Some s
  | n :: rest =>
      match visit mgr operationId n s with
      | None => None
      | Some s' => visitAll mgr operationId rest s'
      end
  end.

Definition scanningPhase (s : ScanState) : jsstring :=
  js "Scanning... (" ++
  numberToString (N.of_nat (length (uniqueImages (found s)))) ++ js " found)".

(** The progress report that ends an iteration of the [while] loop, when
    more than [UPDATE_INTERVAL_MS] passed since the last one.  [progress]
    is the exact quotient the source computes in floating point. *)
Definition report (w : World) (s : ScanState) : ScanState :=
  let now := Date_now w (reads s) in
  if (now - lastUpdateTime s >? CONFIG.UPDATE_INTERVAL_MS)%Z then
    mkScan (found s) (scannedCount s) (stack s) (totalEstimated s) now
           (S (reads s)) (S (yields s))
           (trace s ++
            [Post (scan_progress (scanningPhase s)
                     (Qmin 95 (Q_of_N (scannedCount s) / Q_of_N (totalEstimated s) * 100))
                     (scannedCount s) total_many)])
  else
    mkScan (found s) (scannedCount s) (stack s) (totalEstimated s)
           (lastUpdateTime s) (S (reads s)) (yields s) (trace s).

Inductive LoopExit :=
| Aborted (s : ScanState)
| Finished (s : ScanState).

(** The [while (stack.length > 0)] loop.  [None] stands for a loop that
    has not ended within [fuel] iterations. *)
Fixpoint scanLoop (w : World) (operationId : Z) (fuel : nat) (s : ScanState)
    : option LoopExit :=
  match stack s with
  | [] => Some (Finished s)
  | _ :: _ =>
      match fuel with
      | O => None
      | S fuel' =>
          let mgr := currentOperation w (yields s) in
          if negb (Op.isActive mgr operationId) then Some (Aborted s)
          else
            let chunkLimit := Nat.min (length (stack s)) CONFIG.SCAN_CHUNK_SIZE in
            let nodesToProcess := take chunkLimit (stack s) in
            let s0 := mkScan (found s) (scannedCount s) (drop chunkLimit (stack s))
                             (totalEstimated s) (lastUpdateTime s) (reads s)
                             (yields s) (trace s) in
            match visitAll mgr operationId nodesToProcess s0 with
            | None => None
            | Some s1 => scanLoop w operationId fuel' (report w s1)
            end
      end
  end.

(** Number of nodes of a subtree, and of the subtrees on the stack: the
    iterations the loop can need. *)
Fixpoint nodeSize (n : SceneNode) : nat :=
  match n with
  | mkNode _ _ _ _ cs =>
      S (match cs with
         | None => 0
         | Some l =>
             (fix sizes (l : list SceneNode) : nat :=
                match l with
                | [] => 0
                | c :: l' => nodeSize c + sizes l'
                end) l
         end)%nat
  end.

Definition stackSize (st : list Located) : nat :=
  fold_right (fun l acc => nodeSize (node l) + acc)%nat 0%nat st.

(** What a call of [scanImages] leaves behind: the effects in order, how
    the call ended, and the value assigned to the global [foundImages]
    ([None] when it is not assigned). *)
Record ScanResult := mkResult {
  r_trace : list Effect;
  r_completion : Completion;
  r_foundImages : option (list FoundImageInfo)
}.

Definition startingScan : Effect :=
  Post (scan_progress (js "Starting scan...") 0 0 (total_number 100)).

Definition noSelectionMessage : jsstring :=
  js "No frames selected. Please select frames first.".

Definition startNodesOf (page : PageNode) (scanMode : ScanMode) : list Located :=
  match scanMode with
  | selected => selection page
  | entire => pageChildren page
  end.

Definition scanImages (w : World) (page : PageNode) (scanMode : ScanMode)
    (operationId : Z) : option ScanResult :=
  if negb (Op.isActive (currentOperation w 0%nat) operationId)
  then Some (mkResult [] Returned None)
  else
    let startNodes := startNodesOf page scanMode in
    match scanMode, startNodes with
    | selected, [] => Some (mkResult [startingScan] (Threw noSelectionMessage) None)
    | _, _ =>
        let stack0 := rev startNodes in
        let s0 := mkScan (mkFoundSt [] ∅) 0 stack0
                         (N.of_nat (length startNodes) * 5)
                         (Date_now w 0%nat) 1%nat 0%nat [startingScan] in
        match scanLoop w operationId (stackSize stack0) s0 with
        | None => None
        | Some (Aborted s) => Some (mkResult (trace s) Returned None)
        | Some (Finished s) =>
            let foundImages := map_values (uniqueImages (found s)) in
            if Op.isActive (currentOperation w (yields s)) operationId
            then Some (mkResult (trace s ++ [Post (scan_complete foundImages)])
                                Returned (Some foundImages))
            else Some (mkResult (trace s) Returned (Some foundImages))
        end
    end.

Definition getUserFriendlyError (message : jsstring) : jsstring :=
  if includes message (js "frames selected")
  then js "Please select the frames you want to scan, or switch to 'Entire Page' mode."
  else if includes message (js "Operation cancelled")
  then js "The operation was manually cancelled."
  else message.

(** The [scan-images] case of [figma.ui.onmessage], with its [catch].
    [now] is the clock reading of [start()]; [mgr] is [currentOperation]
    when the message arrives and [later k] its state after [k+1]
    suspensions of the scan. *)
Definition onScanImages (now : Z) (mgr : OperationManager)
    (later : nat -> OperationManager) (clock : nat -> Z)
    (page : PageNode) (scanMode : ScanMode) : option (list Effect) :=
  let '(scanOpId, mgr1) := Op.start now mgr in
  let w := mkWorld clock (fun k => match k with O => mgr1 | S k' => later k' end) in
  match scanImages w page scanMode scanOpId with
  | None => None
  | Some r =>
      match r_completion r with
      | Returned => Some (r_trace r)
      | Threw e => Some (r_trace r ++ [Post (error (getUserFriendlyError e))])
      end
  end.

(** ** fetchImageBytes *)

(** Outcome of an awaited promise: its value, or the message of the error
    it rejects with. *)
Inductive Settled (A : Type) :=
| fulfilled (value : A)
| rejected (reason : jsstring).
Arguments fulfilled {A} value.
Arguments rejected {A} reason.

Record Size := mkSize {
  width : N;
  height : N
}.

(** The object [figma.getImageByHash] returns, with what its two
    asynchronous accessors settle to. *)
Record Image := mkImage {
  getSizeAsync : Settled Size;
  getBytesAsync : Settled Uint8Array
}.

(** The places where [fetchImageBytes] reads [currentOperation]: on entry,
    at the head of the batch that starts at index [i], after a failed
    [attempt] on the item at index [item], and after the last batch. *)
Inductive FetchPoint :=
| at_entry
| at_batch (i : nat)
| at_retry (item attempt : nat)
| at_end.

(** What the fetcher reads of its environment: the host's answer to
    [getImageByHash] at each attempt on each item, the state of
    [currentOperation] at each place it is read, and the successive values
    of [Date.now()]. *)
Record Host := mkHost {
  getImageByHash : nat -> nat -> jsstring -> option Image;
  operationAt : FetchPoint -> OperationManager;
  h_now : nat -> Z
}.

(** The [download-images] message. *)
Record DownloadMsg := mkDownload {
  d_images : list FoundImageInfo;
  downloadType : jsstring;
  formats : list jsstring;
  renamePattern : jsstring
}.

Definition maxSizeMB : jsstring :=
  numberToString (CONFIG.MAX_FILE_SIZE / 1024 / 1024).

(** The [try] block of one attempt. *)
Definition tryFetch (h : Host) (item attempt : nat) (imgInfo : FoundImageInfo)
    : Settled FetchedImageInfo :=
  match getImageByHash h item attempt (hash imgInfo) with
  | None => rejected (js "Image not found in Figma document.")
  | Some img =>
      match getSizeAsync img with
      | rejected e => rejected e
      | fulfilled size =>
          match getBytesAsync img with
          | rejected e => rejected e
          | fulfilled bytes =>
              if CONFIG.MAX_FILE_SIZE <? u8_length bytes
              then rejected (js "Image too large (> " ++ maxSizeMB ++ js "MB)")
              else fulfilled
                     (mkFetched (hash imgInfo) (name imgInfo) (frame imgInfo) bytes
                                (detectImageFormat bytes) (u8_length bytes)
                                (width size) (height size))
          end
      end
  end.

(** The retry loop [for (attempt = 1; attempt <= MAX_RETRY_ATTEMPTS; attempt++)];
    [remaining] counts the attempts left. *)
Fixpoint retryLoop (h : Host) (operationId : Z) (item : nat)
    (imgInfo : FoundImageInfo) (remaining attempt : nat) : Settled FetchedImageInfo :=
  match remaining with
  | O => rejected (js "Exited retry loop without success.")
  | S remaining' =>
      match tryFetch h item attempt imgInfo with
      | fulfilled v => fulfilled v
      | rejected errorMsg =>
          if (attempt =? CONFIG.MAX_RETRY_ATTEMPTS)%nat
          then rejected (js "Failed to fetch after " ++
                         numberToString (N.of_nat CONFIG.MAX_RETRY_ATTEMPTS) ++
                         js " attempts: " ++ errorMsg)
          else if negb (Op.isActive (operationAt h (at_retry item attempt)) operationId)
          then rejected (js "Operation cancelled during retry")
          else retryLoop h operationId item imgInfo remaining' (S attempt)
      end
  end.

(** The callback of [batch.map]: the outcome of the item at index [item]. *)
Definition fetchOne (h : Host) (operationId : Z) (item : nat)
    (imgInfo : FoundImageInfo) : Settled FetchedImageInfo :=
  retryLoop h operationId item imgInfo CONFIG.MAX_RETRY_ATTEMPTS 1.

(** [results.forEach]: fulfilled values are pushed, rejections counted. *)
Fixpoint collect (results : list (Settled FetchedImageInfo))
    (fetchedBatch : list FetchedImageInfo) (failedCount : N)
    : list FetchedImageInfo * N :=
  match results with
  | [] => (fetchedBatch, failedCount)
  | fulfilled v :: rs => collect rs (fetchedBatch ++ [v]) failedCount
  | rejected _ :: rs => collect rs fetchedBatch (failedCount + 1)
  end.

(** [Math.round] and [Math.floor] on a non-negative quotient. *)
Definition roundQ (x : Q) : N := Z.to_N (Qfloor (x + (1 # 2))).
Definition floorQ (x : Q) : N := Z.to_N (Qfloor x).

(** [calculateETA], in exact rational arithmetic where the source uses
    doubles.  A zero [elapsed] makes the rate infinite and the remaining
    time zero. *)
Definition calculateETA (current total : N) (elapsed : Z) : jsstring :=
  if current <? CONFIG.MIN_ETA_SAMPLES then js "Calculating..."
  else
    let remainingS : Q :=
      if (elapsed =? 0)%Z then 0%Q
      else ((Q_of_N total - Q_of_N current) /
            (Q_of_N current / inject_Z elapsed) / 1000)%Q in
    if Qle_bool 1 remainingS then
      if Qle_bool 60 remainingS then
        let minutes := floorQ (remainingS / 60) in
        js "~" ++ numberToString minutes ++ js "m " ++
        numberToString (roundQ (remainingS - 60 * Q_of_N minutes)) ++ js "s"
      else js "~" ++ numberToString (roundQ remainingS) ++ js "s"
    else js "~0s".

(** The local variables of [fetchImageBytes] that change. *)
Record FetchState := mkFetch {
  failedCount : N;
  f_reads : nat;
  f_trace : list Effect
}.

(** [Promise.allSettled(batch.map(...))] for the batch that starts at index
    [i]: the outcomes of its items, in batch order. *)
Definition batchResults (h : Host) (operationId : Z) (images : list FoundImageInfo)
    (i : nat) : list (Settled FetchedImageInfo) :=
  let batch := take CONFIG.BATCH_SIZE (drop i images) in
  imap (fun k imgInfo => fetchOne h operationId (i + k) imgInfo) batch.

(** [if (fetchedBatch.length > 0) postMessage(images-batch-ready)] *)
Definition batchReady (fetchedBatch : list FetchedImageInfo) : list Effect :=
  match fetchedBatch with
  | [] => []
  | _ :: _ => [Post (images_batch_ready fetchedBatch)]
  end.

(** The progress message that ends a batch; [progress] is the exact
    quotient the source computes in floating point. *)
Definition fetchingProgress (processed total : N) (elapsed : Z) : Effect :=
  Post (download_progress (js "Fetching image data...")
          (Q_of_N processed / Q_of_N total * 100) processed total
          (eta_label (calculateETA processed total elapsed))).

(** The body of the batch loop after its cancellation check, for the batch
    that starts at index [i]. *)
Definition runBatch (h : Host) (operationId : Z) (images : list FoundImageInfo)
    (startTime : Z) (i : nat) (st : FetchState) : FetchState :=
  let total := N.of_nat (length images) in
  let results := batchResults h operationId images i in
  let '(fetchedBatch, failed) := collect results [] (failedCount st) in
  let processed := N.min (N.of_nat (i + CONFIG.BATCH_SIZE)) total in
  mkFetch failed (S (f_reads st))
    (f_trace st ++ batchReady fetchedBatch ++
     [fetchingProgress processed total (h_now h (f_reads st) - startTime)]).

(** The loop [for (i = 0; i < total; i += BATCH_SIZE)].  [None] stands for
    a loop that has not ended within [fuel] iterations. *)
Fixpoint batchLoop (h : Host) (operationId : Z) (images : list FoundImageInfo)
    (startTime : Z) (fuel i : nat) (st : FetchState)
    : option (Completion * FetchState) :=
  if (i <? length images)%nat then
    match fuel with
    | O => None
    | S fuel' =>
        if negb (Op.isActive (operationAt h (at_batch i)) operationId)
        then Some (Threw (js "Operation cancelled"), st)
        else batchLoop h operationId images startTime fuel' (i + CONFIG.BATCH_SIZE)
                       (runBatch h operationId images startTime i st)
    end
  else Some (Returned, st).

Definition failureWarning (failed : N) : jsstring :=
  js "Warning: " ++ numberToString failed ++
  js " images failed to download or were too large, even after retries. Max size is " ++
  maxSizeMB ++ js "MB.".

Definition sendingProgress (current total : N) : Effect :=
  Post (download_progress (js "Sending data to UI...") 100 current total
          (eta_label (js "Done"))).

Definition fetchImageBytes (h : Host) (msg : DownloadMsg) (operationId : Z)
    : option (Completion * list Effect) :=
  let images := d_images msg in
  if negb (Op.isActive (operationAt h at_entry) operationId)
  then Some (Returned, [])
  else
    let total := N.of_nat (length images) in
    let startTime := h_now h 0%nat in
    let st0 :=
      mkFetch 0 1
        [Post (download_progress (js "Preparing...") 0 0 total eta_absent);
         Post (download_start (downloadType msg) (formats msg) (renamePattern msg) total)] in
    match batchLoop h operationId images startTime (length images) 0 st0 with
    | None => None
    | Some (Threw e, st) => Some (Threw e, f_trace st)
    | Some (Returned, st) =>
        let warned :=
          if 0 <? failedCount st then [Notify (failureWarning (failedCount st))] else [] in
        let finished :=
          if Op.isActive (operationAt h at_end) operationId
          then [sendingProgress (total - failedCount st) total; Post download_finish]
          else [] in
        Some (Returned, f_trace st ++ warned ++ finished)
    end.

(** ** The message handler *)

(** [sendSelectionInfo] *)
Definition sendSelectionInfo (page : PageNode) : list Effect :=
  [Post (selection_changed (N.of_nat (length (selection page))))].

(** The loop [while (!uiReady) await new Promise(r => setTimeout(r, 10))].
    [uiReadyAt k] is the value of [uiReady] at the [k]-th test of the loop
    condition; the result is the number of the test that ends the loop.
    [None] stands for a loop that has not ended within [fuel] further
    tests. *)
Fixpoint pollUiReady (uiReadyAt : nat -> bool) (fuel k : nat) : option nat :=
  if uiReadyAt k then Some k
  else
    match fuel with
    | O => None
    | S fuel' => pollUiReady uiReadyAt fuel' (S k)
    end.

(** The [init-plugin] case of [figma.ui.onmessage]; [page] is the current
    page when the wait ends. *)
Definition onInitPlugin (uiReadyAt : nat -> bool) (fuel : nat) (page : PageNode)
    : option (list Effect) :=
  match pollUiReady uiReadyAt fuel 0 with
  | None => None
  | Some _ => Some (sendSelectionInfo page)
  end.

(** The host as a download started by the handler sees it: no suspension
    lies between [start()] and the first two places where
    [fetchImageBytes] reads [currentOperation], nor before the last one
    when there is no batch to fetch. *)
Definition startedHost (h : Host) (started : OperationManager)
    (images : list FoundImageInfo) : Host :=
  mkHost (getImageByHash h)
         (fun p =>
            match p, images with
            | at_entry, _ => started
            | at_batch O, _ => started
            | at_end, [] => started
            | _, _ => operationAt h p
            end)
         (h_now h).

(** The [download-images] case of [figma.ui.onmessage], with its [catch].
    [now] is the clock reading of [start()], [mgr] is [currentOperation]
    when the wait for the UI ends. *)
Definition onDownloadImages (uiReadyAt : nat -> bool) (fuel : nat) (now : Z)
    (mgr : OperationManager) (h : Host) (msg : DownloadMsg) : option (list Effect) :=
  match pollUiReady uiReadyAt fuel 0 with
  | None => None
  | Some _ =>
      let '(dlOpId, mgr1) := Op.start now mgr in
      match fetchImageBytes (startedHost h mgr1 (d_images msg)) msg dlOpId with
      | None => None
      | Some (Returned, t) => Some t
      | Some (Threw e, t) => Some (t ++ [Post (error (getUserFriendlyError e))])
      end
  end.

(** The [download-images] case for the messages the handler can meet
    ([msg] is untyped): [images] is [None] when the message carries no
    images array ([undefined] or [null]).  Then [images.length] throws a
    [TypeError] in [fetchImageBytes] after the check of the operation and
    before anything is posted, and the [catch] of the handler posts its
    message; [typeErrorMessage] is the text the engine gives that error. *)
Definition onDownloadMessage (uiReadyAt : nat -> bool) (fuel : nat) (now : Z)
    (mgr : OperationManager) (h : Host) (typeErrorMessage : jsstring)
    (images : option (list FoundImageInfo))
    (dlType : jsstring) (fmts : list jsstring) (pattern : jsstring)
    : option (list Effect) :=
  match images with
  | Some l => onDownloadImages uiReadyAt fuel now mgr h (mkDownload l dlType fmts pattern)
  | None =>
      match pollUiReady uiReadyAt fuel 0 with
      | None => None
      | Some _ => Some [Post (error (getUserFriendlyError typeErrorMessage))]
      end
  end.


(** The cases of [figma.ui.onmessage] that run without suspension, as
    transitions of the two globals they touch. *)
Inductive SyncMessage :=
| msg_ui_ready
| msg_download_success
| msg_cancel_operation
| msg_unknown.

Record Globals := mkGlobals {
  uiReady : bool;
  operation : OperationManager
}.

Definition onSyncMessage (m : SyncMessage) (g : Globals) : Globals * list Effect :=
  match m with
  | msg_ui_ready => (mkGlobals true (operation g), [])
  | msg_cancel_operation =>
      (mkGlobals (uiReady g) (Op.cancel (operation g)), [Post operation_cancelled])
  | msg_download_success => (g, [])
  | msg_unknown => (g, [])
  end.


(** * Vocabulary of the properties *)

(** The label as a function of the first two elements alone. *)
Definition signature (b0 b1 : option byte) : ImageFormat :=
  if byteIs b0 x89 && byteIs b1 x50 then PNG
  else if byteIs b0 xff && byteIs b1 xd8 then JPG
  else if byteIs b0 x52 && byteIs b1 x49 then WEBP
  else if byteIs b0 x47 && byteIs b1 x49 then GIF
  else bin.

Definition endsWithWhiteSpace (s : jsstring) : bool :=
  match rev s with
  | c :: _ => isWhiteSpace c
  | [] => false
  end.

(** The name whose sanitized form ends in a space: 254 letters, a space
    and one more letter. *)
Definition longName : jsstring := replicate 254 97 ++ [32; 98].

(** The stack after the nodes of a chunk pushed their children, one node
    after the other. *)
Fixpoint expand (chunk stack : list Located) : list Located :=
  match chunk with
  | [] => stack
  | n :: rest =>
      expand rest (match childrenOf n with
                   | Some cs => cs ++ stack
                   | None => stack
                   end)
  end.

(** The nodes in the order the scanner visits them: chunk after chunk of
    at most [SCAN_CHUNK_SIZE] nodes popped from the stack. *)
Fixpoint traverse (fuel : nat) (stack : list Located) : list Located :=
  match stack, fuel with
  | [], _ => []
  | _ :: _, O => []
  | _ :: _, S fuel' =>
      let chunkLimit := Nat.min (length stack) CONFIG.SCAN_CHUNK_SIZE in
      take chunkLimit stack ++
      traverse fuel' (expand (take chunkLimit stack) (drop chunkLimit stack))
  end.

Definition visitOrder (startNodes : list Located) : list Located :=
  traverse (stackSize (rev startNodes)) (rev startNodes).

(** The image references of a node, fills before strokes, each with the
    node that carries it. *)
Definition paintHashes (paints : option (list Paint)) : list jsstring :=
  match paints with
  | None => []
  | Some ps => omap imageHashOf ps
  end.

Definition candidatesOf (n : Located) : list (jsstring * Located) :=
  List.map (fun h => (h, n)) (paintHashes (fills (node n)) ++ paintHashes (strokes (node n))).

(** All image references of a scan, in the order they are encountered. *)
Definition candidates (startNodes : list Located) : list (jsstring * Located) :=
  flat_map candidatesOf (visitOrder startNodes).

(** The name an entry receives for base name [b] when the names in [taken]
    are in use: [b] itself when it is free, otherwise [b_k] for the least
    [k >= 1] such that [b_k] is free. *)
Definition resolved (taken : list jsstring) (b : jsstring) (nm : jsstring) : Prop :=
  ((b ∉ taken) /\ nm = b) \/
  ((b ∈ taken) /\
   exists k : N, 1 <= k /\ nm = suffixed b k /\ (nm ∉ taken) /\
     forall j : N, 1 <= j < k -> suffixed b j ∈ taken).

(** Entry [e] is the one made for reference [h] of node [n] when the
    entries [prev] are already in the result. *)
Definition derived (prev : list FoundImageInfo) (h : jsstring) (n : Located)
    (e : FoundImageInfo) : Prop :=
  hash e = h /\
  frame e = frameWalk (baseOf (node n) :: parents n) /\
  resolved (name <$> prev) (baseNameOf n) (name e).

(** The result list that a sequence of references leads to: a reference
    whose hash is already in the result changes nothing, any other appends
    its entry. *)
Inductive Registered : list (jsstring * Located) -> list FoundImageInfo -> Prop :=
| reg_nil : Registered [] []
| reg_skip cs imgs h n :
    Registered cs imgs -> h ∈ hash <$> imgs ->
    Registered (cs ++ [(h, n)]) imgs
| reg_add cs imgs h n e :
    Registered cs imgs -> h ∉ hash <$> imgs -> derived imgs h n e ->
    Registered (cs ++ [(h, n)]) (imgs ++ [e]).

(** The naming rule as the specification words it: the first entry with a
    given base name keeps that name.  The entry for hash [h] is made for
    the first reference to [h]; when no earlier reference comes from a node
    with the same base name, the entry is to carry the base name. *)
Definition spec_first_keeps_base (cands : list (jsstring * Located))
    (imgs : list FoundImageInfo) : Prop :=
  forall pre h n post e,
    cands = pre ++ (h, n) :: post ->
    h ∉ pre.*1 ->
    (forall c, c ∈ pre -> baseNameOf (snd c) <> baseNameOf n) ->
    e ∈ imgs -> hash e = h ->
    name e = baseNameOf n.

(** The container as the specification words it: the sanitized name of
    the nearest proper ancestor that is a frame, a component or a component
    set, and the page-level default when the page comes first or the chain
    ends. *)
Fixpoint spec_container (ancestors : list BaseNode) : jsstring :=
  match ancestors with
  | [] => js "Page"
  | p :: rest =>
      if strEq (b_type p) (js "FRAME") || strEq (b_type p) (js "COMPONENT") ||
         strEq (b_type p) (js "COMPONENT_SET")
      then sanitizeFileName (b_name p)
      else if strEq (b_type p) (js "PAGE") then js "Page"
      else spec_container rest
  end.

Definition isScanProgress (e : Effect) : bool :=
  match e with
  | Post (scan_progress _ _ _ _) => true
  | _ => false
  end.

Definition isScanComplete (e : Effect) : bool :=
  match e with
  | Post (scan_complete _) => true
  | _ => false
  end.

(** The images a scan publishes: the payload of its [scan-complete]. *)
Definition published (r : ScanResult) : option (list FoundImageInfo) :=
  match List.find isScanComplete (r_trace r) with
  | Some (Post (scan_complete imgs)) => Some imgs
  | _ => None
  end.

(** Where the ancestor walk over [chain] ends, and the name it gives. *)
Definition passed (q : BaseNode) : Prop :=
  isContainerType (b_type q) = false /\ b_type q <> js "PAGE".

Inductive walkEnds (chain : list BaseNode) (nm : jsstring) : Prop :=
| ends_at_container pre p post :
    chain = pre ++ p :: post -> Forall passed pre ->
    isContainerType (b_type p) = true ->
    nm = sanitizeFileName (b_name p) ->
    walkEnds chain nm
| ends_at_page pre p post :
    chain = pre ++ p :: post -> Forall passed pre ->
    isContainerType (b_type p) = false -> b_type p = js "PAGE" ->
    nm = js "Page" ->
    walkEnds chain nm
| ends_at_root :
    Forall passed chain ->
    nm = js "Page" ->
    walkEnds chain nm.

(** A string without characters of the illegal class. *)
Definition legal (s : jsstring) : Prop := Forall (fun c => illegalChar c = false) s.

(** A sanitized name is not empty, has no illegal character, does not
    start with whitespace and has at most 255 code units. *)
Record clean (y : jsstring) : Prop := {
  clean_legal : legal y;
  clean_head : exists c t, y = c :: t /\ isWhiteSpace c = false;
  clean_length : (length y <= 255)%nat
}.

(** What links the two working collections of a scan to the references
    processed so far. *)
Record Inv (cs : list (jsstring * Located)) (st : Found) : Prop := {
  inv_reg : Registered cs (map_values (uniqueImages st));
  inv_keys : (uniqueImages st).*1 = hash <$> map_values (uniqueImages st);
  inv_names : forall x, x ∈ existingNames st <-> x ∈ name <$> map_values (uniqueImages st)
}.

(** ** Sample documents *)

(** A world in which operation 7 stays current and the clock stands still. *)
Definition quietWorld : World :=
  mkWorld (fun _ => 0%Z) (fun _ => mkOp 7 false).

Definition imagePaint (h : string) : Paint := mkPaint (js "IMAGE") (Some (js h)).
Definition solidPaint : Paint := mkPaint (js "SOLID") None.

Definition shape (ty nm : string) (fl : list Paint) : SceneNode :=
  mkNode (js nm) (js ty) (Some fl) (Some []) None.

Definition container (ty nm : string) (fl : list Paint) (kids : list SceneNode) : SceneNode :=
  mkNode (js nm) (js ty) (Some fl) (Some []) (Some kids).

(** Three image rectangles; the scan visits the last child first. *)
Definition collisionPage : PageNode :=
  mkPage (js "Page 1")
    [shape "RECTANGLE" "a_1" [imagePaint "h3"];
     shape "RECTANGLE" "a" [imagePaint "h2"];
     shape "RECTANGLE" "a" [imagePaint "h1"]] [].

(** Two nodes with the same image. *)
Definition sharedPage : PageNode :=
  mkPage (js "Page 1")
    [shape "RECTANGLE" "Second" [imagePaint "H1"];
     shape "RECTANGLE" "First" [imagePaint "H1"]] [].

(** An image two levels inside the frame Hero, in a container with three
    children. *)
Definition heroPage : PageNode :=
  mkPage (js "Page 1")
    [container "FRAME" "Hero" [solidPaint]
       [mkNode (js "Group 1") (js "GROUP") None None
          (Some [shape "RECTANGLE" "Icon" [imagePaint "H1"];
                 shape "RECTANGLE" "Shape" [solidPaint];
                 shape "TEXT" "Label" [solidPaint]])]] [].

(** An image inside an instance inside the frame Hero, and a frame Card
    with an image fill of its own. *)
Definition instancePage : PageNode :=
  mkPage (js "Page 1")
    [container "FRAME" "Card" [imagePaint "H2"] [];
     container "FRAME" "Hero" [solidPaint]
       [container "INSTANCE" "Btn" []
          [shape "RECTANGLE" "Icon" [imagePaint "H1"]]]] [].

Definition emptySelectionPage : PageNode :=
  mkPage (js "Page 1") [shape "RECTANGLE" "a" [imagePaint "h1"]] [].

Definition selectFramesMessage : jsstring :=
  js "Please select the frames you want to scan, or switch to 'Entire Page' mode.".

(** The container rule as the specification words it, over a scan result:
    the entry for hash [h] carries the container of the node of the first
    reference to [h]. *)
Definition spec_container_holds (cands : list (jsstring * Located))
    (imgs : list FoundImageInfo) : Prop :=
  forall pre h n post e,
    cands = pre ++ (h, n) :: post ->
    h ∉ pre.*1 ->
    e ∈ imgs -> hash e = h ->
    frame e = spec_container (parents n).

(** The fulfilled values and the number of rejections among settled
    outcomes. *)
Definition fulfilledValue {A} (r : Settled A) : option A :=
  match r with
  | fulfilled v => Some v
  | rejected _ => None
  end.

Definition successes (rs : list (Settled FetchedImageInfo)) : list FetchedImageInfo :=
  omap fulfilledValue rs.

Fixpoint failures (rs : list (Settled FetchedImageInfo)) : nat :=
  match rs with
  | [] => 0
  | fulfilled _ :: rs' => failures rs'
  | rejected _ :: rs' => S (failures rs')
  end.

Definition isBatchReady (e : Effect) : bool :=
  match e with
  | Post (images_batch_ready _) => true
  | _ => false
  end.

Definition isDownloadProgress (e : Effect) : bool :=
  match e with
  | Post (download_progress _ _ _ _ _) => true
  | _ => false
  end.

(** No [images-batch-ready] of the trace carries an empty list. *)
Definition readyNonEmpty (t : list Effect) : Prop :=
  forall l, Post (images_batch_ready l) ∈ t -> l <> [].

Definition isBatchEvent (e : Effect) : bool := isBatchReady e || isDownloadProgress e.

(** The outcomes of all items from index [i] on. *)
Definition resultsFrom (h : Host) (operationId : Z) (images : list FoundImageInfo)
    (i : nat) : list (Settled FetchedImageInfo) :=
  imap (fun k imgInfo => fetchOne h operationId (i + k) imgInfo) (drop i images).

Definition tooLargeMessage : jsstring := js "Image too large (> 100MB)".

Definition oneFailureWarning : jsstring :=
  js "Warning: 1 images failed to download or were too large, even after retries. Max size is 100MB.".

(** A host with one image over the size ceiling (hash big) and small PNG
    images for every other hash; operation 7 stays current. *)
Definition oversized : Uint8Array := mkU8 (CONFIG.MAX_FILE_SIZE + 1) (fun _ => x00).

Definition smallPng : Uint8Array := Uint8Array_of_list [x89; x50; x4e; x47].

Definition sampleHost : Host :=
  mkHost
    (fun _ _ hsh =>
       if strEq hsh (js "big")
       then Some (mkImage (fulfilled (mkSize 4000 4000)) (fulfilled oversized))
       else Some (mkImage (fulfilled (mkSize 1 1)) (fulfilled smallPng)))
    (fun _ => mkOp 7 false)
    (fun _ => 0%Z).

Definition sampleDownload : DownloadMsg :=
  mkDownload
    [mkFound (js "h1") (js "a") (js "Page");
     mkFound (js "big") (js "b") (js "Page");
     mkFound (js "h3") (js "c") (js "Page")]
    (js "original") [] (js "").

(** ** Vocabulary of the further properties *)

(** A history of calls on the operation manager. *)
Inductive OpCall :=
| call_start (now : Z)
| call_cancel.

Definition runCall (m : OperationManager) (c : OpCall) : OperationManager :=
  match c with
  | call_start now => snd (Op.start now m)
  | call_cancel => Op.cancel m
  end.

Definition runCalls (calls : list OpCall) (m : OperationManager) : OperationManager :=
  fold_left runCall calls m.

(** The nodes of a subtree, each with its parent chain, and the nodes of
    the subtrees of a list of located nodes. *)
Fixpoint subtree (n : SceneNode) (ps : list BaseNode) : list Located :=
  match n with
  | mkNode nm ty _ _ cs =>
      mkLoc n ps ::
      match cs with
      | None => []
      | Some l =>
          (fix go (l : list SceneNode) : list Located :=
             match l with
             | [] => []
             | c :: l' => subtree c (mkBase ty nm :: ps) ++ go l'
             end) l
      end
  end.

Definition forest (st : list Located) : list Located :=
  flat_map (fun l => subtree (node l) (parents l)) st.

(** The image references a node carries. *)
Definition hashesOf (n : Located) : list jsstring :=
  paintHashes (fills (node n)) ++ paintHashes (strokes (node n)).

(** A scan progress message with a percentage of at most 95. *)
Definition cappedProgress (e : Effect) : Prop :=
  match e with
  | Post (scan_progress _ p _ _) => (p <= 95)%Q
  | _ => False
  end.

(** The items of all [images-batch-ready] messages of a trace, in order. *)
Definition delivered (t : list Effect) : list FetchedImageInfo :=
  flat_map (fun e => match e with
                     | Post (images_batch_ready l) => l
                     | _ => []
                     end) t.

(** The number of per-batch progress messages of a trace. *)
Definition batchCycles (t : list Effect) : nat :=
  length (List.filter isDownloadProgress t).

(** What [tryFetch] guarantees of a fetched item made for [info]. *)
Definition fetchedFor (info : FoundImageInfo) (v : FetchedImageInfo) : Prop :=
  f_hash v = hash info /\ f_name v = name info /\ f_frame v = frame info /\
  f_size v = u8_length (f_bytes v) /\
  f_size v <= CONFIG.MAX_FILE_SIZE /\
  f_format v = detectImageFormat (f_bytes v).

Definition cancelledMessage : jsstring := js "The operation was manually cancelled.".

Definition openingMessages (msg : DownloadMsg) : list Effect :=
  let total := N.of_nat (length (d_images msg)) in
  [Post (download_progress (js "Preparing...") 0 0 total eta_absent);
   Post (download_start (downloadType msg) (formats msg) (renamePattern msg) total)].


(** The messages that close a fetch in which [failed] items failed. *)
Definition closingMessages (failed total : N) : list Effect :=
  (if 0 <? failed then [Notify (failureWarning failed)] else []) ++
  [sendingProgress (total - failed) total; Post download_finish].

(** A host where no image is found; operation 7 stays current. *)
Definition missingHost : Host :=
  mkHost (fun _ _ _ => None) (fun _ => mkOp 7 false) (fun _ => 0%Z).

(** A host where no image is found and operation 7 is cancelled while the
    first retry is pending. *)
Definition retryCancelHost : Host :=
  mkHost (fun _ _ _ => None)
         (fun p => match p with
                   | at_retry _ _ => mkOp 7 true
                   | _ => mkOp 7 false
                   end)
         (fun _ => 0%Z).

(** A host with small images where operation 7 is cancelled before the
    second batch. *)
Definition secondBatchCancelHost : Host :=
  mkHost (fun _ _ _ => Some (mkImage (fulfilled (mkSize 1 1)) (fulfilled smallPng)))
         (fun p => match p with
                   | at_batch (S _) => mkOp 7 true
                   | _ => mkOp 7 false
                   end)
         (fun _ => 0%Z).

Definition twelveImages : DownloadMsg :=
  mkDownload (replicate 12 (mkFound (js "h") (js "a") (js "Page")))
             (js "original") [] (js "").


(** What follows the batch messages of a fetch that ended with [c] after
    [failed] failures; [current] tells whether the operation is current
    after the last batch. *)
Definition fetchTail (c : Completion) (failed total : N) (current : bool) : list Effect :=
  match c with
  | Threw _ => []
  | Returned =>
      (if 0 <? failed then [Notify (failureWarning failed)] else []) ++
      (if current then [sendingProgress (total - failed) total; Post download_finish]
       else [])
  end.

Definition isFinal (e : Effect) : bool :=
  match e with
  | Notify _ => true
  | Post download_finish => true
  | Post (error _) => true
  | _ => false
  end.


(** A host with small images for every hash; operation 7 stays current. *)
Definition smallHost : Host :=
  mkHost (fun _ _ _ => Some (mkImage (fulfilled (mkSize 1 1)) (fulfilled smallPng)))
         (fun _ => mkOp 7 false)
         (fun _ => 0%Z).


(** The state in which [scanImages] enters its loop. *)
Definition scanStart (w : World) (startNodes : list Located) : ScanState :=
  mkScan (mkFoundSt [] ∅) 0 (rev startNodes)
         (N.of_nat (length startNodes) * 5)
         (Date_now w 0%nat) 1%nat 0%nat [startingScan].

(** What a running scan has observed: its progress messages are capped,
    it posted one message on entry and one at each suspension, and it
    found its operation current after each earlier suspension. *)
Definition observed (w : World) (operationId : Z) (s : ScanState) : Prop :=
  Forall cappedProgress (trace s) /\
  length (trace s) = S (yields s) /\
  forall k, (k < yields s)%nat -> Op.isActive (currentOperation w k) operationId = true.


(** The messages of the batch that starts at index [i]: one
    [images-batch-ready] with the items fetched, when there is one, then
    the progress message that counts the images handled so far. *)
Definition batchPosts (h : Host) (operationId : Z) (images : list FoundImageInfo)
    (i : nat) (evs : list Effect) : Prop :=
  let fetched :=
    successes (imap (fun k info => fetchOne h operationId (i + k) info)
                    (take CONFIG.BATCH_SIZE (drop i images))) in
  exists progress eta,
    evs =
    match fetched with
    | [] => []
    | _ :: _ => [Post (images_batch_ready fetched)]
    end ++
    [Post (download_progress (js "Fetching image data...") progress
             (N.min (N.of_nat (i + CONFIG.BATCH_SIZE)) (N.of_nat (length images)))
             (N.of_nat (length images)) eta)].


(** * Properties *)

(** ** The format sniffer *)

Section Sniffer.

Lemma byteIs_true o b : byteIs o b = true <-> o = Some b.
Proof.
  destruct o as [x|]; simpl; [|split; discriminate].
  split.
  - intros H. f_equal. by apply Byte.byte_dec_bl.
  - intros [= ->]. by apply Byte.byte_dec_lb.
Qed.

Lemma byteIs_same b : byteIs (Some b) b = true.
Proof. by apply byteIs_true. Qed.

Lemma prefix_differs o0 o1 a b :
  (o0, o1) <> (Some a, Some b) -> byteIs o0 a && byteIs o1 b = false.
Proof.
  intros H. apply andb_false_iff.
  destruct (byteIs o0 a) eqn:E0; [right | by left].
  destruct (byteIs o1 b) eqn:E1; [exfalso | done].
  apply byteIs_true in E0, E1. congruence.
Qed.

Lemma detect_short bytes : u8_length bytes < 4 -> detectImageFormat bytes = bin.
Proof.
  intros H. unfold detectImageFormat.
  destruct (N.ltb_spec (u8_length bytes) 4); [reflexivity | lia].
Qed.

Lemma detect_long bytes :
  4 <= u8_length bytes ->
  detectImageFormat bytes = signature (u8_get bytes 0) (u8_get bytes 1).
Proof.
  intros H. unfold detectImageFormat, signature.
  destruct (N.ltb_spec (u8_length bytes) 4); [lia | reflexivity].
Qed.

End Sniffer.

(** C6. [detectImageFormat] is a total function into the five labels: a
    buffer shorter than 4 bytes is [bin] (the unknown label); a buffer of
    at least 4 bytes that starts 89 50, FF D8, 52 49 or 47 49 is PNG, JPG,
    WEBP or GIF; every other buffer is [bin]. *)
Theorem detect_total_classification (bytes : Uint8Array) :
  (detectImageFormat bytes = PNG \/ detectImageFormat bytes = JPG \/
   detectImageFormat bytes = WEBP \/ detectImageFormat bytes = GIF \/
   detectImageFormat bytes = bin) /\
  (u8_length bytes < 4 -> detectImageFormat bytes = bin) /\
  (4 <= u8_length bytes ->
   u8_get bytes 0 = Some x89 -> u8_get bytes 1 = Some x50 ->
   detectImageFormat bytes = PNG) /\
  (4 <= u8_length bytes ->
   u8_get bytes 0 = Some xff -> u8_get bytes 1 = Some xd8 ->
   detectImageFormat bytes = JPG) /\
  (4 <= u8_length bytes ->
   u8_get bytes 0 = Some x52 -> u8_get bytes 1 = Some x49 ->
   detectImageFormat bytes = WEBP) /\
  (4 <= u8_length bytes ->
   u8_get bytes 0 = Some x47 -> u8_get bytes 1 = Some x49 ->
   detectImageFormat bytes = GIF) /\
  ((u8_get bytes 0, u8_get bytes 1) <> (Some x89, Some x50) ->
   (u8_get bytes 0, u8_get bytes 1) <> (Some xff, Some xd8) ->
   (u8_get bytes 0, u8_get bytes 1) <> (Some x52, Some x49) ->
   (u8_get bytes 0, u8_get bytes 1) <> (Some x47, Some x49) ->
   detectImageFormat bytes = bin).
Proof.
  split; [destruct (detectImageFormat bytes); tauto|].
  split; [apply detect_short|].
  repeat split.
  1-4: intros Hlen E0 E1; rewrite (detect_long _ Hlen), E0, E1; reflexivity.
  intros H1 H2 H3 H4.
  destruct (N.ltb_spec (u8_length bytes) 4) as [Hlt|Hlen]; [by apply detect_short|].
  rewrite (detect_long _ Hlen). unfold signature.
  by rewrite !prefix_differs.
Qed.

Lemma detect_total_classification_witness :
  detectImageFormat (Uint8Array_of_list [x47; x49; x46; x38]) = GIF /\
  detectImageFormat (Uint8Array_of_list [x89; x50]) = bin /\
  detectImageFormat (Uint8Array_of_list [x00; x00; x00; x00]) = bin.
Proof.
  destruct (detect_total_classification (Uint8Array_of_list [x47; x49; x46; x38]))
    as (_ & _ & _ & _ & _ & Hgif & _).
  destruct (detect_total_classification (Uint8Array_of_list [x89; x50]))
    as (_ & Hshort & _).
  destruct (detect_total_classification (Uint8Array_of_list [x00; x00; x00; x00]))
    as (_ & _ & _ & _ & _ & _ & Hother).
  split; [|split].
  - apply Hgif; [vm_compute; discriminate | reflexivity | reflexivity].
  - apply Hshort. reflexivity.
  - apply Hother; vm_compute; congruence.
Defined.

(** C9. On buffers of at least 4 bytes the label depends on bytes 0 and 1
    only; any such buffer that starts 52 49 is WEBP; a buffer of at most 3
    bytes is [bin] whatever it starts with. *)
Theorem detect_depends_on_first_two_bytes :
  (forall b1 b2 : Uint8Array,
      4 <= u8_length b1 -> 4 <= u8_length b2 ->
      u8_get b1 0 = u8_get b2 0 -> u8_get b1 1 = u8_get b2 1 ->
      detectImageFormat b1 = detectImageFormat b2) /\
  (forall b : Uint8Array,
      4 <= u8_length b -> u8_get b 0 = Some x52 -> u8_get b 1 = Some x49 ->
      detectImageFormat b = WEBP) /\
  (forall b : Uint8Array, u8_length b <= 3 -> detectImageFormat b = bin).
Proof.
  split; [|split].
  - intros b1 b2 H1 H2 E0 E1.
    rewrite (detect_long _ H1), (detect_long _ H2), E0, E1. reflexivity.
  - intros b H E0 E1. rewrite (detect_long _ H), E0, E1. reflexivity.
  - intros b H. apply detect_short. lia.
Qed.

Lemma detect_depends_on_first_two_bytes_witness :
  detectImageFormat (Uint8Array_of_list [x52; x49; x00; x01]) =
  detectImageFormat (Uint8Array_of_list [x52; x49; xff; xfe; x07]) /\
  detectImageFormat (Uint8Array_of_list [x52; x49; x46; x46]) = WEBP /\
  detectImageFormat (Uint8Array_of_list [x52; x49; x46]) = bin.
Proof.
  destruct detect_depends_on_first_two_bytes as (H1 & H2 & H3).
  split; [|split].
  - apply H1; [vm_compute; discriminate | vm_compute; discriminate | reflexivity ..].
  - apply H2; [vm_compute; discriminate | reflexivity ..].
  - apply H3. vm_compute; discriminate.
Defined.

(** ** The operation manager *)

Module OpFacts.

(** A token other than the one [start] returns is inactive afterwards. *)
Lemma start_invalidates_other now m t :
  t <> now -> Op.isActive (snd (Op.start now m)) t = false.
Proof.
  intros H. unfold Op.isActive; simpl.
  destruct (Z.eqb_spec now t); congruence.
Qed.

Lemma start_activates now m :
  Op.isActive (snd (Op.start now m)) (fst (Op.start now m)) = true.
Proof. unfold Op.isActive; simpl. apply Z.eqb_refl. Qed.

(** In one state of the manager at most one token value is active. *)
Lemma active_unique m t1 t2 :
  Op.isActive m t1 = true -> Op.isActive m t2 = true -> t1 = t2.
Proof.
  unfold Op.isActive. intros H1 H2.
  apply andb_true_iff in H1 as [_ H1], H2 as [_ H2].
  apply Z.eqb_eq in H1, H2. congruence.
Qed.

Lemma cancel_deactivates m t : Op.isActive (Op.cancel m) t = false.
Proof. reflexivity. Qed.

End OpFacts.

(** C3. Two calls of [start()] that read the same value of [Date.now()]
    return the same token: the token of the first operation is still
    active after the second [start()], and so both operations see
    themselves as active. *)
Theorem start_same_clock_reading_keeps_token_active :
  let '(t, m1) := Op.start 1700000000000 Op.init in
  let '(t', m2) := Op.start 1700000000000 m1 in
  t' = t /\ Op.isActive m2 t = true /\ Op.isActive m2 t' = true.
Proof. vm_compute. auto. Qed.

(** ** The sanitizer *)

Section Sanitizer.

Lemma replaceIllegal_legal s : legal (replaceIllegal s).
Proof.
  induction s as [|c s IH]; constructor; [|exact IH].
  destruct (illegalChar c) eqn:E; [reflexivity | exact E].
Qed.

Lemma replaceIllegal_id s : legal s -> replaceIllegal s = s.
Proof.
  induction 1 as [|c s Hc _ IH]; [reflexivity|].
  simpl. rewrite Hc. f_equal. exact IH.
Qed.

Lemma trimStart_suffix s : exists p, s = p ++ trimStart s.
Proof.
  induction s as [|c s [p IH]]; [by exists []|].
  simpl. destruct (isWhiteSpace c).
  - exists (c :: p). simpl. by f_equal.
  - by exists [].
Qed.

Lemma trimStart_legal s : legal s -> legal (trimStart s).
Proof.
  intros H. destruct (trimStart_suffix s) as [p E].
  rewrite E in H. by apply Forall_app in H as [_ H].
Qed.

Lemma trimStart_head s c t : trimStart s = c :: t -> isWhiteSpace c = false.
Proof.
  induction s as [|a s IH]; [discriminate|].
  simpl. destruct (isWhiteSpace a) eqn:E; [exact IH|].
  intros [= <- _]. exact E.
Qed.

Lemma trimStart_length s : (length (trimStart s) <= length s)%nat.
Proof.
  destruct (trimStart_suffix s) as [p E].
  rewrite E at 2. rewrite length_app. lia.
Qed.

Lemma trimEnd_snoc s c :
  trimEnd (s ++ [c]) = if isWhiteSpace c then trimEnd s else s ++ [c].
Proof.
  unfold trimEnd. rewrite rev_app_distr. simpl.
  destruct (isWhiteSpace c); [reflexivity|].
  simpl. by rewrite rev_involutive.
Qed.

Lemma trimEnd_legal s : legal s -> legal (trimEnd s).
Proof.
  intros H. unfold trimEnd, legal.
  apply Forall_rev, trimStart_legal, Forall_rev, H.
Qed.

Lemma trimEnd_length s : (length (trimEnd s) <= length s)%nat.
Proof.
  unfold trimEnd. rewrite length_rev.
  etransitivity; [apply trimStart_length|]. by rewrite length_rev.
Qed.

Lemma trimEnd_cons c t :
  isWhiteSpace c = false -> trimEnd (c :: t) = c :: trimEnd t.
Proof.
  intros Hc. induction t as [|x t IH] using rev_ind.
  - unfold trimEnd. simpl. by rewrite Hc.
  - change (c :: t ++ [x]) with ((c :: t) ++ [x]).
    rewrite !trimEnd_snoc, IH. by destruct (isWhiteSpace x).
Qed.

Lemma trimEnd_fixed s : trimEnd s = s <-> endsWithWhiteSpace s = false.
Proof.
  unfold endsWithWhiteSpace.
  destruct s as [|x s _] using rev_ind; [done|].
  rewrite trimEnd_snoc, rev_app_distr. simpl.
  destruct (isWhiteSpace x); [|done].
  split; [|done]. intros E.
  pose proof (trimEnd_length s) as L.
  rewrite E, length_app in L. simpl in L. lia.
Qed.

Lemma trimEnd_clean s : endsWithWhiteSpace (trimEnd s) = false.
Proof.
  unfold endsWithWhiteSpace, trimEnd. rewrite rev_involutive.
  destruct (trimStart (rev s)) as [|c t] eqn:E; [done|].
  by apply trimStart_head in E.
Qed.

(** The empty-name branch of the conditional gives what the other branch
    would. *)
Lemma sanitizeFileName_unfold x :
  sanitizeFileName x = orElse (substring0 255 (trim (replaceIllegal x))) (js "image").
Proof. by destruct x. Qed.

Lemma image_clean : clean (js "image").
Proof.
  split.
  - vm_compute. repeat constructor.
  - by eexists _, _.
  - vm_compute. lia.
Qed.

Lemma sanitizeFileName_clean x : clean (sanitizeFileName x).
Proof.
  rewrite sanitizeFileName_unfold. unfold substring0, trim.
  pose proof (trimStart_legal _ (replaceIllegal_legal x)) as HL.
  destruct (trimStart (replaceIllegal x)) as [|c t] eqn:E.
  { apply image_clean. }
  pose proof (trimStart_head _ _ _ E) as Hc.
  rewrite (trimEnd_cons _ _ Hc). simpl. split.
  - apply Forall_cons. apply Forall_cons in HL as [H1 H2]. split; [done|].
    apply Forall_take, trimEnd_legal, H2.
  - by eexists _, _.
  - simpl. rewrite length_take. lia.
Qed.

Lemma sanitizeFileName_of_clean y : clean y -> sanitizeFileName y = trimEnd y.
Proof.
  intros [HL (c & t & -> & Hc) Hlen].
  rewrite sanitizeFileName_unfold, (replaceIllegal_id _ HL). unfold trim, substring0.
  simpl. rewrite Hc.
  pose proof (trimEnd_length (c :: t)) as L.
  rewrite take_ge by lia.
  by rewrite (trimEnd_cons _ _ Hc).
Qed.

End Sanitizer.

(** C5, as stated, fails: truncation to 255 code units can leave a trailing
    space, which a second pass trims. *)
Lemma sanitize_not_idempotent :
  sanitizeFileName (sanitizeFileName longName) <> sanitizeFileName longName.
Proof. vm_compute. discriminate. Qed.

(** C5, amended. A second pass only trims trailing whitespace: sanitizing
    twice equals sanitizing once exactly when the sanitized name does not
    end in whitespace, which is the case whenever the replaced and trimmed
    name has at most 255 code units. *)
Theorem sanitize_twice_trims_end (x : jsstring) :
  sanitizeFileName (sanitizeFileName x) = trimEnd (sanitizeFileName x) /\
  (sanitizeFileName (sanitizeFileName x) = sanitizeFileName x <->
   endsWithWhiteSpace (sanitizeFileName x) = false) /\
  ((length (trim (replaceIllegal x)) <= 255)%nat ->
   sanitizeFileName (sanitizeFileName x) = sanitizeFileName x).
Proof.
  pose proof (sanitizeFileName_of_clean _ (sanitizeFileName_clean x)) as E.
  split; [exact E|]. split.
  - rewrite E. apply trimEnd_fixed.
  - intros Hlen. rewrite E. apply trimEnd_fixed.
    rewrite sanitizeFileName_unfold. unfold substring0.
    rewrite take_ge by exact Hlen.
    destruct (trim (replaceIllegal x)) eqn:T; [reflexivity|].
    simpl. rewrite <- T. apply trimEnd_clean.
Qed.

Lemma sanitize_twice_trims_end_witness :
  sanitizeFileName (sanitizeFileName (js " my:file?.png ")) =
  sanitizeFileName (js " my:file?.png ").
Proof.
  apply (sanitize_twice_trims_end (js " my:file?.png ")).
  vm_compute. lia.
Defined.

(** ** Names *)

Section Names.

Lemma uint_units_inj d d' : uint_units d = uint_units d' -> d = d'.
Proof.
  revert d'. induction d; intros []; simpl; intros [=]; f_equal; auto.
Qed.

Lemma numberToString_inj n n' : numberToString n = numberToString n' -> n = n'.
Proof. intros H. by apply Unsigned.to_uint_inj, uint_units_inj. Qed.

Lemma suffixed_inj b k k' : suffixed b k = suffixed b k' -> k = k'.
Proof.
  unfold suffixed. intros H.
  apply app_inv_head in H. apply app_inv_head in H.
  by apply numberToString_inj.
Qed.

Lemma suffixed_longer b k : suffixed b k <> b.
Proof.
  unfold suffixed. intros H.
  apply (f_equal length) in H. rewrite !length_app in H.
  change (length (js "_")) with 1%nat in H. lia.
Qed.

Variable used : gset jsstring.
Variable b : jsstring.

(** When the loop gives up, every name it tried is taken. *)
Lemma resolveName_None fuel u c :
  resolveName fuel used b u c = None ->
  u ∈ used /\ forall j : nat, (j < fuel)%nat -> suffixed b (c + N.of_nat j) ∈ used.
Proof.
  revert u c. induction fuel as [|fuel IH]; intros u c; simpl.
  - case_bool_decide; [|discriminate]. intros _. split; [done|]. lia.
  - case_bool_decide as Hu; [|discriminate]. intros H.
    apply IH in H as [H0 H]. split; [done|].
    intros [|j] Hj.
    + by rewrite N.add_0_r.
    + replace (c + N.of_nat (S j)) with (c + 1 + N.of_nat j) by lia.
      apply H. lia.
Qed.

Lemma resolveName_Some fuel u c r :
  resolveName fuel used b u c = Some r ->
  ((u ∉ used) /\ r = u) \/
  ((u ∈ used) /\ exists k, c <= k /\ r = suffixed b k /\ (r ∉ used) /\
             forall j, c <= j < k -> suffixed b j ∈ used).
Proof.
  revert u c. induction fuel as [|fuel IH]; intros u c; simpl.
  - case_bool_decide; [discriminate|]. intros [= <-]. by left.
  - case_bool_decide as Hu; [|intros [= <-]; by left].
    intros H. right. split; [done|].
    apply IH in H as [[Hn ->]|[Hin (k & Hk & -> & Hr & Hj)]].
    + exists c. repeat split; [lia | done | lia].
    + exists k. repeat split; [lia | done |].
      intros j Hjk. destruct (N.eq_dec j c) as [->|]; [done|].
      apply Hj. lia.
Qed.

(** The loop ends within [size used] iterations: the names it tries are
    pairwise different, and they cannot all be in [used]. *)
Lemma resolveName_total : is_Some (resolveName (size used) used b b 1).
Proof.
  destruct (resolveName (size used) used b b 1) eqn:E; [done|].
  apply resolveName_None in E as [Hb Hs]. exfalso.
  set (tried := b :: ((fun j => suffixed b (1 + N.of_nat j)) <$> seq 0 (size used))).
  assert (NoDup tried) as Hnd.
  { apply NoDup_cons. split.
    - intros (j & Hj & _)%list_elem_of_fmap. symmetry in Hj.
      by apply suffixed_longer in Hj.
    - apply NoDup_fmap_2; [|apply NoDup_seq].
      intros j j' Hjj. apply suffixed_inj in Hjj. lia. }
  assert (list_to_set tried ⊆ used) as Hsub.
  { intros x [->|(j & -> & Hj%elem_of_seq)%list_elem_of_fmap]%elem_of_list_to_set%elem_of_cons;
      [done|]. apply Hs. lia. }
  apply subseteq_size in Hsub.
  rewrite size_list_to_set in Hsub by done.
  unfold tried in Hsub. simpl in Hsub.
  rewrite length_fmap, length_seq in Hsub. lia.
Qed.

End Names.

(** ** The result of a sequence of references *)

Section RegisteredFacts.

Lemma resolved_fresh taken b nm : resolved taken b nm -> nm ∉ taken.
Proof. by intros [[H ->]|[_ (k & _ & _ & H & _)]]. Qed.

(** The hashes of the result are the hashes of the references. *)
Lemma Registered_hashes cs imgs :
  Registered cs imgs -> forall h, h ∈ cs.*1 <-> h ∈ hash <$> imgs.
Proof.
  induction 1 as [|cs imgs h n _ IH Hin|cs imgs h n e _ IH Hnin (He & _)]; intros x.
  - done.
  - rewrite fmap_app, elem_of_app, IH. simpl. rewrite list_elem_of_singleton.
    split; [intros [?| ->]; done | by left].
  - rewrite !fmap_app, !elem_of_app, IH. simpl. rewrite !list_elem_of_singleton.
    by rewrite He.
Qed.

Lemma Registered_NoDup_hash cs imgs : Registered cs imgs -> NoDup (hash <$> imgs).
Proof.
  induction 1 as [| |cs imgs h n e _ IH Hnin (He & _)]; [constructor | done |].
  rewrite fmap_app. apply NoDup_app. split; [done|]. split.
  - intros x Hx [->|[]%elem_of_nil]%elem_of_cons. by rewrite He in Hx.
  - apply NoDup_singleton.
Qed.

Lemma Registered_NoDup_name cs imgs : Registered cs imgs -> NoDup (name <$> imgs).
Proof.
  induction 1 as [| |cs imgs h n e _ IH Hnin (_ & _ & Hr)]; [constructor | done |].
  rewrite fmap_app. apply NoDup_app. split; [done|]. split.
  - intros x Hx [->|[]%elem_of_nil]%elem_of_cons. by apply resolved_fresh in Hr.
  - apply NoDup_singleton.
Qed.

(** Every entry was made for the first reference to its hash, when the
    entries before it were the result. *)
Lemma Registered_split cs imgs :
  Registered cs imgs ->
  forall l1 e l2, imgs = l1 ++ e :: l2 ->
  exists cs1 n cs2,
    cs = cs1 ++ (hash e, n) :: cs2 /\ Registered cs1 l1 /\
    (hash e ∉ cs1.*1) /\ derived l1 (hash e) n e.
Proof.
  induction 1 as [|cs imgs h n Hreg IH Hin|cs imgs h n e' Hreg IH Hnin Hd];
    intros l1 e l2 E.
  - by destruct l1.
  - destruct (IH _ _ _ E) as (cs1 & m & cs2 & -> & H1 & H2 & H3).
    exists cs1, m, (cs2 ++ [(h, n)]). by rewrite <- app_assoc.
  - destruct l2 as [|x l2 _] using rev_ind.
    + apply app_inj_tail in E as [-> ->].
      pose proof Hd as (He & _). subst h.
      exists cs, n, []. repeat split; try done.
      * by rewrite (Registered_hashes _ _ Hreg).
      * apply Hd.
      * apply Hd.
    + rewrite app_comm_cons, app_assoc in E.
      apply app_inj_tail in E as [-> ->].
      destruct (IH _ _ _ eq_refl) as (cs1 & m & cs2 & -> & H1 & H2 & H3).
      exists cs1, m, (cs2 ++ [(h, n)]). by rewrite <- app_assoc.
Qed.

End RegisteredFacts.

(** ** The scanner builds the registered result *)

Section Scanner.

Lemma strEq_true a b : strEq a b = true <-> a = b.
Proof. unfold strEq. by rewrite bool_decide_eq_true. Qed.

Lemma map_has_true m k : map_has m k = true <-> k ∈ m.*1.
Proof.
  unfold map_has. induction m as [|[k' v] m IH]; simpl.
  - split; [discriminate | by intros ?%elem_of_nil].
  - rewrite orb_true_iff, strEq_true, IH, elem_of_cons. simpl.
    split; (intros [H|H]; [left | right]); done.
Qed.

Lemma map_set_fresh m k v : k ∉ m.*1 -> map_set m k v = m ++ [(k, v)].
Proof.
  induction m as [|[k' v'] m IH]; simpl; [done|].
  intros [Hne Hm]%not_elem_of_cons.
  destruct (strEq k' k) eqn:E; [by apply strEq_true in E|].
  by rewrite IH.
Qed.

Lemma Inv_empty : Inv [] (mkFoundSt [] ∅).
Proof. split; [constructor | done | set_solver]. Qed.

Variable mgr : OperationManager.
Variable operationId : Z.
Hypothesis active : Op.isActive mgr operationId = true.

Lemma addUniqueImage_inv cs st h n :
  Inv cs st ->
  exists st', addUniqueImage mgr operationId h n st = Some st' /\
              Inv (cs ++ [(h, n)]) st'.
Proof.
  intros [Hreg Hkeys Hnames]. unfold addUniqueImage. rewrite active. simpl.
  destruct (map_has (uniqueImages st) h) eqn:Hhas.
  - exists st. split; [done|]. split; [|done..].
    apply reg_skip; [done|]. rewrite <- Hkeys. by apply map_has_true.
  - assert (h ∉ (uniqueImages st).*1) as Hfresh.
    { intros Hin%map_has_true. congruence. }
    destruct (resolveName_total (existingNames st) (baseNameOf n)) as [u Hu].
    rewrite Hu. eexists. split; [done|].
    rewrite (map_set_fresh _ _ _ Hfresh).
    assert (resolved (name <$> map_values (uniqueImages st)) (baseNameOf n) u) as Hres.
    { apply resolveName_Some in Hu as [[H1 ->]|[H1 (k & Hk & -> & H2 & H3)]].
      - left. by rewrite <- Hnames.
      - right. rewrite <- Hnames. split; [done|]. exists k.
        repeat split; [done | by rewrite <- Hnames |].
        intros j Hj. apply Hnames. by apply H3. }
    split; unfold map_values in *; cbn [uniqueImages existingNames];
      rewrite (map_app snd); cbn [List.map snd].
    + apply reg_add; [done | by rewrite <- Hkeys |]. by repeat split.
    + by rewrite !fmap_app, Hkeys.
    + intros x. rewrite fmap_app, elem_of_app, elem_of_union, Hnames.
      cbn [fmap list_fmap name]. rewrite elem_of_singleton, list_elem_of_singleton. tauto.
Qed.

Lemma forEachPaint_inv n ps : forall cs st,
  Inv cs st ->
  exists st', forEachPaint mgr operationId n ps st = Some st' /\
              Inv (cs ++ List.map (fun h => (h, n)) (omap imageHashOf ps)) st'.
Proof.
  induction ps as [|p ps IH]; intros cs st HI; simpl.
  - exists st. by rewrite app_nil_r.
  - unfold processPaint. destruct (imageHashOf p) as [h|]; simpl.
    + destruct (addUniqueImage_inv cs st h n HI) as (st1 & -> & H1).
      destruct (IH _ _ H1) as (st2 & -> & H2).
      exists st2. split; [done|]. by rewrite <- app_assoc in H2.
    + by apply IH.
Qed.

Lemma find_image_None ps :
  List.find (fun f => bool_decide (is_Some (imageHashOf f))) ps = None ->
  omap imageHashOf ps = [].
Proof.
  induction ps as [|p ps IH]; simpl; [done|].
  case_bool_decide as Hp; [discriminate|].
  intros H. destruct (imageHashOf p); [by destruct Hp|]. by apply IH.
Qed.

Lemma checkPaints_inv n paints cs st :
  Inv cs st ->
  exists st', checkPaints mgr operationId n paints st = Some st' /\
              Inv (cs ++ List.map (fun h => (h, n)) (paintHashes paints)) st'.
Proof.
  intros HI. destruct paints as [ps|]; simpl.
  - destruct (List.find _ ps) eqn:E.
    + by apply forEachPaint_inv.
    + rewrite (find_image_None _ E). simpl. exists st. by rewrite app_nil_r.
  - exists st. by rewrite app_nil_r.
Qed.

Lemma checkNodeForImages_inv n cs st :
  Inv cs st ->
  exists st', checkNodeForImages mgr operationId n st = Some st' /\
              Inv (cs ++ candidatesOf n) st'.
Proof.
  intros HI. unfold checkNodeForImages. rewrite active. simpl.
  destruct (checkPaints_inv n (fills (node n)) cs st HI) as (st1 & -> & H1).
  destruct (checkPaints_inv n (strokes (node n)) _ st1 H1) as (st2 & -> & H2).
  exists st2. split; [done|].
  unfold candidatesOf. by rewrite map_app, app_assoc.
Qed.

Lemma visitAll_inv chunk : forall cs s,
  Inv cs (found s) ->
  exists s', visitAll mgr operationId chunk s = Some s' /\
             Inv (cs ++ flat_map candidatesOf chunk) (found s') /\
             stack s' = expand chunk (stack s) /\
             trace s' = trace s /\ yields s' = yields s.
Proof.
  induction chunk as [|n chunk IH]; intros cs s HI; simpl.
  - exists s. by rewrite app_nil_r.
  - unfold visit.
    destruct (checkNodeForImages_inv n cs (found s) HI) as (f & -> & Hf).
    destruct (childrenOf n) as [kids|];
      (edestruct (IH (cs ++ candidatesOf n)) as (s' & -> & H1 & H2 & H3 & H4);
       [exact Hf|]);
      exists s'; (split; [done|]); by rewrite app_assoc.
Qed.

End Scanner.

Section ScanLoop.

Lemma stackSize_app a b : stackSize (a ++ b) = (stackSize a + stackSize b)%nat.
Proof. induction a as [|x a IH]; simpl; [done|]. rewrite IH. lia. Qed.

Lemma stackSize_children n :
  nodeSize (node n) =
  S (match childrenOf n with Some cs => stackSize cs | None => 0%nat end).
Proof.
  unfold childrenOf. destruct n as [[nm ty fl sk kids] ps]; simpl.
  f_equal. destruct kids as [kids|]; [|done].
  induction kids as [|c kids IH]; simpl; [done|]. by rewrite IH.
Qed.

Lemma stackSize_expand chunk : forall st,
  (stackSize (expand chunk st) + length chunk = stackSize chunk + stackSize st)%nat.
Proof.
  induction chunk as [|n chunk IH]; intros st; simpl; [done|].
  specialize (IH (match childrenOf n with Some cs => cs ++ st | None => st end)).
  rewrite (stackSize_children n).
  destruct (childrenOf n); [rewrite stackSize_app in IH|]; lia.
Qed.

Lemma report_found w s : found (report w s) = found s.
Proof. unfold report. by destruct (_ >? _)%Z. Qed.

Lemma report_stack w s : stack (report w s) = stack s.
Proof. unfold report. by destruct (_ >? _)%Z. Qed.

Lemma report_trace w s :
  Forall (fun e => isScanProgress e = true) (trace s) ->
  Forall (fun e => isScanProgress e = true) (trace (report w s)).
Proof.
  unfold report. destruct (_ >? _)%Z; simpl; [|done].
  intros H. apply Forall_app. split; [done|]. by repeat constructor.
Qed.

Variable w : World.
Variable operationId : Z.

Lemma scanLoop_nil fuel s : stack s = [] -> scanLoop w operationId fuel s = Some (Finished s).
Proof. intros E. destruct fuel; simpl; by rewrite E. Qed.

Lemma scanLoop_cons fuel s x rest :
  stack s = x :: rest ->
  scanLoop w operationId (S fuel) s =
  if negb (Op.isActive (currentOperation w (yields s)) operationId)
  then Some (Aborted s)
  else
    let chunkLimit := Nat.min (length (stack s)) CONFIG.SCAN_CHUNK_SIZE in
    match visitAll (currentOperation w (yields s)) operationId
                   (take chunkLimit (stack s))
                   (mkScan (found s) (scannedCount s) (drop chunkLimit (stack s))
                           (totalEstimated s) (lastUpdateTime s) (reads s)
                           (yields s) (trace s)) with
    | None => None
    | Some s1 => scanLoop w operationId fuel (report w s1)
    end.
Proof. intros E. cbn [scanLoop]. by rewrite E. Qed.

Lemma traverse_nil fuel : traverse fuel [] = [].
Proof. by destruct fuel. Qed.

Lemma traverse_cons fuel x rest :
  traverse (S fuel) (x :: rest) =
  let chunkLimit := Nat.min (length (x :: rest)) CONFIG.SCAN_CHUNK_SIZE in
  take chunkLimit (x :: rest) ++
  traverse fuel (expand (take chunkLimit (x :: rest)) (drop chunkLimit (x :: rest))).
Proof. reflexivity. Qed.

(** The loop ends within [stackSize] iterations; when it is not aborted,
    it has registered the references of the traversal, in order. *)
Lemma scanLoop_inv : forall fuel s cs,
  (stackSize (stack s) <= fuel)%nat ->
  Inv cs (found s) ->
  Forall (fun e => isScanProgress e = true) (trace s) ->
  exists ex, scanLoop w operationId fuel s = Some ex /\
    match ex with
    | Aborted s' =>
        Forall (fun e => isScanProgress e = true) (trace s') /\
        exists k, Op.isActive (currentOperation w k) operationId = false
    | Finished s' =>
        Inv (cs ++ flat_map candidatesOf (traverse fuel (stack s))) (found s') /\
        Forall (fun e => isScanProgress e = true) (trace s')
    end.
Proof.
  induction fuel as [|fuel IH]; intros s cs Hfuel HI Ht.
  - destruct (stack s) as [|x rest] eqn:Es.
    + exists (Finished s). rewrite scanLoop_nil by done. by rewrite app_nil_r.
    + simpl in Hfuel. pose proof (stackSize_children x). lia.
  - destruct (stack s) as [|x rest] eqn:Es.
    { exists (Finished s). rewrite scanLoop_nil, traverse_nil by done.
      by rewrite app_nil_r. }
    rewrite (scanLoop_cons _ _ _ _ Es), traverse_cons, Es.
    destruct (Op.isActive (currentOperation w (yields s)) operationId) eqn:Hact;
      cbn [negb].
    2: { exists (Aborted s). split; [done|]. split; [done|]. by eexists. }
    cbv zeta.
    set (k := Nat.min (length (x :: rest)) CONFIG.SCAN_CHUNK_SIZE).
    set (s0 := mkScan _ _ _ _ _ _ _ _).
    destruct (visitAll_inv _ operationId Hact (take k (x :: rest)) cs s0 HI)
      as (s1 & -> & H1 & H2 & H3 & H4).
    assert (stack s1 = expand (take k (x :: rest)) (drop k (x :: rest))) as H2'
      by exact H2.
    destruct (IH (report w s1) (cs ++ flat_map candidatesOf (take k (x :: rest))))
      as (ex & -> & Hex).
    + rewrite report_stack, H2'.
      pose proof (stackSize_expand (take k (x :: rest)) (drop k (x :: rest))) as E.
      rewrite <- stackSize_app, take_drop in E.
      assert (1 <= length (take k (x :: rest)))%nat.
      { rewrite length_take. unfold k, CONFIG.SCAN_CHUNK_SIZE. simpl. lia. }
      lia.
    + by rewrite report_found.
    + apply report_trace. by rewrite H3.
    + exists ex. split; [done|]. destruct ex as [s'|s']; [done|].
      rewrite report_stack, H2' in Hex.
      rewrite flat_map_app, app_assoc. exact Hex.
Qed.

End ScanLoop.

(** ** scanImages *)

Section ScanImages.

Lemma progress_not_complete t :
  Forall (fun e => isScanProgress e = true) t -> List.find isScanComplete t = None.
Proof.
  induction 1 as [|e t He _ IH]; [done|].
  simpl. destruct e as [[]|]; try discriminate. exact IH.
Qed.

Lemma find_app_None {A} (f : A -> bool) a b :
  List.find f a = None -> List.find f (a ++ b) = List.find f b.
Proof.
  induction a as [|x a IH]; [done|]. simpl.
  destruct (f x); [discriminate | exact IH].
Qed.

Variable w : World.
Variable page : PageNode.
Variable scanMode : ScanMode.
Variable operationId : Z.

(** A scan always ends; what it publishes is the registered result of
    the references met in traversal order; and it publishes when the
    operation stays current and there is something to scan from. *)
Lemma scanImages_spec :
  exists r, scanImages w page scanMode operationId = Some r /\
    (forall imgs, published r = Some imgs ->
       Registered (candidates (startNodesOf page scanMode)) imgs) /\
    ((forall k, Op.isActive (currentOperation w k) operationId = true) ->
     (scanMode = selected -> selection page <> []) ->
     exists imgs, published r = Some imgs).
Proof.
  unfold scanImages.
  destruct (Op.isActive (currentOperation w 0%nat) operationId) eqn:H0; cbn [negb].
  2: { eexists. split; [done|]. split; [done|]. intros H. by rewrite H in H0. }
  set (start := startNodesOf page scanMode).
  assert (forall X : option ScanResult,
    (exists r, X = Some r /\
      (forall imgs, published r = Some imgs -> Registered (candidates start) imgs) /\
      ((forall k, Op.isActive (currentOperation w k) operationId = true) ->
       exists imgs, published r = Some imgs)) ->
    (exists r, X = Some r /\
      (forall imgs, published r = Some imgs -> Registered (candidates start) imgs) /\
      ((forall k, Op.isActive (currentOperation w k) operationId = true) ->
       (scanMode = selected -> selection page <> []) ->
       exists imgs, published r = Some imgs))) as weaken.
  { intros X (r & -> & H1 & H2). exists r. split; [done|]. split; [done|]. auto. }
  assert (exists r,
    match scanLoop w operationId (stackSize (rev start))
            (mkScan (mkFoundSt [] ∅) 0 (rev start) (N.of_nat (length start) * 5)
                    (Date_now w 0%nat) 1%nat 0%nat [startingScan]) with
    | None => None
    | Some (Aborted s) => Some (mkResult (trace s) Returned None)
    | Some (Finished s) =>
        if Op.isActive (currentOperation w (yields s)) operationId
        then Some (mkResult
                     (trace s ++ [Post (scan_complete (map_values (uniqueImages (found s))))])
                     Returned (Some (map_values (uniqueImages (found s)))))
        else Some (mkResult (trace s) Returned (Some (map_values (uniqueImages (found s)))))
    end = Some r /\
    (forall imgs, published r = Some imgs -> Registered (candidates start) imgs) /\
    ((forall k, Op.isActive (currentOperation w k) operationId = true) ->
     exists imgs, published r = Some imgs)) as main.
  { edestruct (scanLoop_inv w operationId (stackSize (rev start))
                 (mkScan (mkFoundSt [] ∅) 0 (rev start) (N.of_nat (length start) * 5)
                         (Date_now w 0%nat) 1%nat 0%nat [startingScan]) [])
      as (ex & -> & Hex); [done | apply Inv_empty | by repeat constructor |].
    destruct ex as [s|s].
    - destruct Hex as (Ht & k & Hk). eexists. split; [done|].
      unfold published; simpl. rewrite (progress_not_complete _ Ht).
      split; [done|]. intros H. by rewrite H in Hk.
    - destruct Hex as ([Hreg _ _] & Ht).
      destruct (Op.isActive (currentOperation w (yields s)) operationId) eqn:Hend.
      + eexists. split; [done|].
        unfold published; simpl.
        rewrite (find_app_None _ _ _ (progress_not_complete _ Ht)). simpl.
        split; [|by eexists]. intros imgs [= <-]. exact Hreg.
      + eexists. split; [done|].
        unfold published; simpl. rewrite (progress_not_complete _ Ht).
        split; [done|]. intros H. by rewrite H in Hend. }
  destruct scanMode.
  - destruct start; apply weaken, main.
  - destruct start as [|x rest] eqn:Estart; [|apply weaken, main].
    eexists. split; [done|]. split; [done|].
    intros _ H. by destruct H.
Qed.

End ScanImages.

Lemma frameWalk_ends chain : walkEnds chain (frameWalk chain).
Proof.
  induction chain as [|p rest IH]; simpl.
  - by apply ends_at_root.
  - destruct (isContainerType (b_type p)) eqn:Ec.
    { by apply (ends_at_container _ _ [] p rest). }
    destruct (strEq (b_type p) (js "PAGE")) eqn:Ep.
    { apply strEq_true in Ep. by apply (ends_at_page _ _ [] p rest). }
    assert (passed p) as Hp.
    { split; [done|]. intros E%strEq_true. congruence. }
    destruct IH as [pre q post -> Hpre Hq Hnm|pre q post -> Hpre Hq Hpage Hnm|Hall Hnm].
    + apply (ends_at_container _ _ (p :: pre) q post); auto.
    + apply (ends_at_page _ _ (p :: pre) q post); auto.
    + apply ends_at_root; auto.
Qed.

(** C1. Every scan ends, and the images it publishes carry pairwise
    different hashes: each entry was made for the first reference to its
    hash in traversal order (its container and base name are those of that
    node), and every hash referenced has its entry. *)
Theorem scan_identity_unique_first_wins
    (w : World) (page : PageNode) (scanMode : ScanMode) (operationId : Z) :
  exists r, scanImages w page scanMode operationId = Some r /\
    forall imgs, published r = Some imgs ->
      NoDup (hash <$> imgs) /\
      (forall e, e ∈ imgs ->
         exists pre n post,
           candidates (startNodesOf page scanMode) = pre ++ (hash e, n) :: post /\
           (hash e ∉ pre.*1) /\
           frame e = frameWalk (baseOf (node n) :: parents n) /\
           (name e = baseNameOf n \/ exists k, name e = suffixed (baseNameOf n) k)) /\
      (forall h n, (h, n) ∈ candidates (startNodesOf page scanMode) ->
         h ∈ hash <$> imgs).
Proof.
  destruct (scanImages_spec w page scanMode operationId) as (r & Hr & Hreg & _).
  exists r. split; [done|]. intros imgs Hpub. specialize (Hreg _ Hpub).
  split; [by eapply Registered_NoDup_hash|]. split.
  - intros e (l1 & l2 & ->)%list_elem_of_split.
    destruct (Registered_split _ _ Hreg l1 e l2 eq_refl)
      as (cs1 & n & cs2 & E & _ & Hfirst & _ & Hframe & Hname).
    exists cs1, n, cs2. repeat split; [done..|].
    destruct Hname as [[_ ->]|[_ (k & _ & -> & _)]]; [by left | right; by exists k].
  - intros h n Hin. apply (Registered_hashes _ _ Hreg).
    apply list_elem_of_fmap. by exists (h, n).
Qed.

Lemma scan_identity_unique_first_wins_witness :
  exists r, scanImages quietWorld sharedPage entire 7 = Some r /\
    published r = Some [mkFound (js "H1") (js "First") (js "Page")] /\
    NoDup (hash <$> [mkFound (js "H1") (js "First") (js "Page")]).
Proof.
  destruct (scan_identity_unique_first_wins quietWorld sharedPage entire 7)
    as (r & Hr & H).
  exists r. split; [exact Hr|].
  assert (published r = Some [mkFound (js "H1") (js "First") (js "Page")]) as Hpub.
  { vm_compute in Hr. injection Hr as <-. reflexivity. }
  split; [exact Hpub|]. apply (H _ Hpub).
Defined.

(** C2, as stated, fails: on [collisionPage] the third entry is the first
    whose node has the base name a_1, and it is published as a_1_1, because
    the second entry already took a_1 as its suffixed name. *)
Lemma first_entry_may_lose_base_name :
  exists r imgs,
    scanImages quietWorld collisionPage entire 7 = Some r /\
    published r = Some imgs /\
    imgs = [mkFound (js "h1") (js "a") (js "Page");
            mkFound (js "h2") (js "a_1") (js "Page");
            mkFound (js "h3") (js "a_1_1") (js "Page")] /\
    ~ spec_first_keeps_base (candidates (startNodesOf collisionPage entire)) imgs.
Proof.
  eexists _, _. split; [vm_compute; reflexivity|]. split; [reflexivity|].
  split; [reflexivity|].
  intros H.
  remember (candidates (startNodesOf collisionPage entire)) as cands eqn:Ec.
  vm_compute in Ec.
  match type of Ec with
  | _ = [?c1; ?c2; (?h, ?n)] =>
      specialize (H [c1; c2] h n [] (mkFound h (js "a_1_1") (js "Page")) Ec)
  end.
  assert (js "a_1_1" = js "a_1") as E; [|by vm_compute in E].
  apply H.
  - vm_compute. intros [[=]|[[=]|[]%elem_of_nil]%elem_of_cons]%elem_of_cons.
  - intros c [->|[->|[]%elem_of_nil]%elem_of_cons]%elem_of_cons; by vm_compute.
  - vm_compute. do 2 apply list_elem_of_further. apply list_elem_of_here.
  - reflexivity.
Qed.

(** C2, amended. Every scan ends, and the names it publishes are pairwise
    different: each entry has the base name of its node when no earlier
    entry has that name, and otherwise the suffixed name [base_k] with the
    least [k >= 1] that no earlier entry has. *)
Theorem display_names_distinct_and_resolved
    (w : World) (page : PageNode) (scanMode : ScanMode) (operationId : Z) :
  exists r, scanImages w page scanMode operationId = Some r /\
    forall imgs, published r = Some imgs ->
      NoDup (name <$> imgs) /\
      forall l1 e l2, imgs = l1 ++ e :: l2 ->
        exists pre n post,
          candidates (startNodesOf page scanMode) = pre ++ (hash e, n) :: post /\
          (hash e ∉ pre.*1) /\
          resolved (name <$> l1) (baseNameOf n) (name e).
Proof.
  destruct (scanImages_spec w page scanMode operationId) as (r & Hr & Hreg & _).
  exists r. split; [done|]. intros imgs Hpub. specialize (Hreg _ Hpub).
  split; [by eapply Registered_NoDup_name|].
  intros l1 e l2 E.
  destruct (Registered_split _ _ Hreg l1 e l2 E)
    as (cs1 & n & cs2 & Ec & _ & Hfirst & _ & _ & Hname).
  by exists cs1, n, cs2.
Qed.

Lemma display_names_distinct_and_resolved_witness :
  exists r, scanImages quietWorld collisionPage entire 7 = Some r /\
    NoDup [js "a"; js "a_1"; js "a_1_1"].
Proof.
  destruct (display_names_distinct_and_resolved quietWorld collisionPage entire 7)
    as (r & Hr & H).
  exists r. split; [exact Hr|].
  assert (published r = Some [mkFound (js "h1") (js "a") (js "Page");
                              mkFound (js "h2") (js "a_1") (js "Page");
                              mkFound (js "h3") (js "a_1_1") (js "Page")]) as Hpub.
  { vm_compute in Hr. injection Hr as <-. reflexivity. }
  apply (H _ Hpub).
Defined.

(** C7, as stated, fails: on [instancePage] the image inside the instance
    Btn inside the frame Hero is published with container Btn, where the
    nearest frame, component or component set above it is Hero. *)
Lemma instance_is_taken_as_container :
  exists r imgs,
    scanImages quietWorld instancePage entire 7 = Some r /\
    published r = Some imgs /\
    imgs = [mkFound (js "H2") (js "Card") (js "Card");
            mkFound (js "H1") (js "Icon") (js "Btn")] /\
    ~ spec_container_holds (candidates (startNodesOf instancePage entire)) imgs.
Proof.
  eexists _, _. split; [vm_compute; reflexivity|]. split; [reflexivity|].
  split; [reflexivity|].
  intros H.
  remember (candidates (startNodesOf instancePage entire)) as cands eqn:Ec.
  vm_compute in Ec.
  match type of Ec with
  | _ = [?c1; (?h, ?n)] =>
      specialize (H [c1] h n [] (mkFound h (js "Icon") (js "Btn")) Ec)
  end.
  assert (js "Btn" = js "Hero") as E; [|by vm_compute in E].
  apply H.
  - vm_compute. intros [[=]|[]%elem_of_nil]%elem_of_cons.
  - vm_compute. apply list_elem_of_further, list_elem_of_here.
  - reflexivity.
Qed.

(** C7, amended. The container recorded for a published entry comes from
    the walk that starts at the node of the first reference to its hash and
    goes up its parents: the sanitized name of the first node that is a
    frame, a component, an instance or a component set, and the default
    Page when a page comes first or the chain ends.  On [heroPage] the
    image Icon, two levels inside the frame Hero, is published as the one
    entry with name Icon and container Hero. *)
Theorem container_is_nearest_from_node
    (w : World) (page : PageNode) (scanMode : ScanMode) (operationId : Z) :
  (exists r, scanImages w page scanMode operationId = Some r /\
     forall imgs, published r = Some imgs ->
       forall e, e ∈ imgs ->
         exists pre n post,
           candidates (startNodesOf page scanMode) = pre ++ (hash e, n) :: post /\
           (hash e ∉ pre.*1) /\
           frame e = frameWalk (baseOf (node n) :: parents n) /\
           walkEnds (baseOf (node n) :: parents n) (frame e)) /\
  (exists r', scanImages quietWorld heroPage entire 7 = Some r' /\
     published r' = Some [mkFound (js "H1") (js "Icon") (js "Hero")]).
Proof.
  split.
  - destruct (scanImages_spec w page scanMode operationId) as (r & Hr & Hreg & _).
    exists r. split; [done|]. intros imgs Hpub. specialize (Hreg _ Hpub).
    intros e (l1 & l2 & ->)%list_elem_of_split.
    destruct (Registered_split _ _ Hreg l1 e l2 eq_refl)
      as (cs1 & n & cs2 & E & _ & Hfirst & _ & Hframe & _).
    exists cs1, n, cs2. repeat split; [done..|].
    rewrite Hframe. apply frameWalk_ends.
  - eexists. split; [vm_compute; reflexivity | reflexivity].
Qed.

Lemma container_is_nearest_from_node_witness :
  exists r, scanImages quietWorld instancePage entire 7 = Some r /\
    walkEnds [mkBase (js "RECTANGLE") (js "Icon"); mkBase (js "INSTANCE") (js "Btn");
              mkBase (js "FRAME") (js "Hero"); mkBase (js "PAGE") (js "Page 1")]
             (js "Btn").
Proof.
  destruct (container_is_nearest_from_node quietWorld instancePage entire 7)
    as ((r & Hr & H) & _).
  exists r. split; [exact Hr|].
  assert (published r = Some [mkFound (js "H2") (js "Card") (js "Card");
                              mkFound (js "H1") (js "Icon") (js "Btn")]) as Hpub.
  { vm_compute in Hr. injection Hr as <-. reflexivity. }
  destruct (H _ Hpub (mkFound (js "H1") (js "Icon") (js "Btn")))
    as (pre & n & post & Ec & Hfirst & Hframe & Hends).
  { apply list_elem_of_further, list_elem_of_here. }
  vm_compute in Ec.
  destruct pre as [|c1 [|c2 pre]]; simpl in Ec.
  - exfalso. by injection Ec.
  - injection Ec as _ <- _. exact Hends.
  - exfalso. injection Ec as _ _ Ec. by destruct pre.
Defined.

(** C4, as stated, fails: the scan posts its first progress message before
    it looks at the selection. *)
Lemma empty_selection_emits_progress :
  exists t,
    onScanImages 5 Op.init (fun _ => Op.init) (fun _ => 0%Z)
                 emptySelectionPage selected = Some t /\
    t = [startingScan; Post (error selectFramesMessage)] /\
    ~ (forall e, e ∈ t -> isScanProgress e = false).
Proof.
  eexists. split; [vm_compute; reflexivity|]. split; [reflexivity|].
  intros H. specialize (H startingScan (list_elem_of_here _ _)). discriminate.
Qed.

(** C4, amended. A scan of the selection with nothing selected posts the
    initial progress message (Starting scan..., 0 of 100), then throws the
    no-selection error; the message handler turns it into the error message
    that asks to select frames.  No other progress message and no
    completion message is posted. *)
Theorem empty_selection_fails_after_starting_progress
    (now : Z) (mgr : OperationManager) (later : nat -> OperationManager)
    (clock : nat -> Z) (page : PageNode) :
  selection page = [] ->
  (forall w operationId,
     Op.isActive (currentOperation w 0%nat) operationId = true ->
     scanImages w page selected operationId =
     Some (mkResult [startingScan] (Threw noSelectionMessage) None)) /\
  onScanImages now mgr later clock page selected =
  Some [startingScan; Post (error selectFramesMessage)].
Proof.
  intros Hsel.
  assert (forall w operationId,
     Op.isActive (currentOperation w 0%nat) operationId = true ->
     scanImages w page selected operationId =
     Some (mkResult [startingScan] (Threw noSelectionMessage) None)) as Hscan.
  { intros w op Hact. unfold scanImages. rewrite Hact. cbn [negb startNodesOf].
    by rewrite Hsel. }
  split; [exact Hscan|].
  unfold onScanImages, Op.start. rewrite Hscan.
  - reflexivity.
  - unfold Op.isActive. simpl. apply Z.eqb_refl.
Qed.

Lemma empty_selection_fails_after_starting_progress_witness :
  onScanImages 5 Op.init (fun _ => Op.init) (fun _ => 0%Z) emptySelectionPage selected =
  Some [startingScan; Post (error selectFramesMessage)].
Proof.
  apply (empty_selection_fails_after_starting_progress 5 Op.init (fun _ => Op.init)
           (fun _ => 0%Z) emptySelectionPage).
  reflexivity.
Defined.

(** ** The batch fetcher *)

Section Fetcher.

Lemma collect_spec rs : forall acc n,
  collect rs acc n = (acc ++ successes rs, n + N.of_nat (failures rs)).
Proof.
  induction rs as [|[v|m] rs IH]; intros acc n; simpl.
  - by rewrite app_nil_r, N.add_0_r.
  - rewrite IH. by rewrite <- app_assoc.
  - rewrite IH. f_equal. lia.
Qed.

Lemma failures_app a b : failures (a ++ b) = (failures a + failures b)%nat.
Proof. induction a as [|[v|m] a IH]; simpl; [done | done | by rewrite IH]. Qed.

Lemma successes_elem rs v : v ∈ successes rs <-> fulfilled v ∈ rs.
Proof.
  unfold successes. rewrite list_elem_of_omap. split.
  - intros ([x|m] & Hin & [= ->]). done.
  - intros H. by exists (fulfilled v).
Qed.

Lemma batchReady_elem l e :
  e ∈ batchReady l <-> e = Post (images_batch_ready l) /\ l <> [].
Proof.
  destruct l as [|x l]; simpl.
  - split; [by intros ?%elem_of_nil | by intros [_ []]].
  - rewrite list_elem_of_singleton. split; [by intros -> | by intros [-> _]].
Qed.

Variable h : Host.
Variable operationId : Z.
Variable images : list FoundImageInfo.
Variable startTime : Z.

Lemma runBatch_spec i st :
  runBatch h operationId images startTime i st =
  mkFetch (failedCount st + N.of_nat (failures (batchResults h operationId images i)))
          (S (f_reads st))
          (f_trace st ++
           batchReady (successes (batchResults h operationId images i)) ++
           [fetchingProgress
              (N.min (N.of_nat (i + CONFIG.BATCH_SIZE)) (N.of_nat (length images)))
              (N.of_nat (length images))
              (h_now h (f_reads st) - startTime)]).
Proof. unfold runBatch. by rewrite collect_spec. Qed.

(** An item of a batch result is the outcome of an item of [images] at
    or after the start of the batch. *)
Lemma batchResults_elem i r :
  r ∈ batchResults h operationId images i ->
  exists k info, (i <= k)%nat /\ images !! k = Some info /\
                 r = fetchOne h operationId k info.
Proof.
  unfold batchResults. intros (k & info & -> & Hk)%elem_of_lookup_imap.
  apply lookup_take_Some in Hk as [Hk _]. rewrite lookup_drop in Hk.
  exists (i + k)%nat, info. split; [lia | done].
Qed.

Lemma batchLoop_step fuel i st :
  batchLoop h operationId images startTime (S fuel) i st =
  if (i <? length images)%nat then
    if negb (Op.isActive (operationAt h (at_batch i)) operationId)
    then Some (Threw (js "Operation cancelled"), st)
    else batchLoop h operationId images startTime fuel (i + CONFIG.BATCH_SIZE)
                   (runBatch h operationId images startTime i st)
  else Some (Returned, st).
Proof. reflexivity. Qed.

(** The batch loop ends within [length images] iterations, and leaves no
    empty [images-batch-ready] behind. *)
Lemma batchLoop_ready : forall fuel i st,
  (length images <= i + fuel)%nat ->
  readyNonEmpty (f_trace st) ->
  exists c st', batchLoop h operationId images startTime fuel i st = Some (c, st') /\
                readyNonEmpty (f_trace st').
Proof.
  induction fuel as [|fuel IH]; intros i st Hfuel Hne.
  - simpl. destruct (Nat.ltb_spec i (length images)); [lia|]. by eexists _, _.
  - rewrite batchLoop_step.
    destruct (Nat.ltb_spec i (length images)); [|by eexists _, _].
    destruct (negb _); [by eexists _, _|].
    apply IH; [unfold CONFIG.BATCH_SIZE; lia|].
    rewrite runBatch_spec; simpl. intros l.
    rewrite !elem_of_app, batchReady_elem, list_elem_of_singleton.
    intros [Hl|[[[= ->] Hl]|[=]]]; [by apply Hne | done].
Qed.

End Fetcher.

(** The batches the loop runs, one after the other from index [i]: each
    is started while the operation is current and posts its messages; the
    loop ends after the last batch, or at the first batch head where the
    operation is not current. *)
Lemma batchLoop_groups (h : Host) (operationId : Z) (images : list FoundImageInfo)
    (startTime : Z) : forall fuel i st,
  (length images <= i + fuel)%nat ->
  exists c groups st',
    batchLoop h operationId images startTime fuel i st = Some (c, st') /\
    f_trace st' = f_trace st ++ concat groups /\
    (forall b evs, groups !! b = Some evs ->
       Op.isActive (operationAt h (at_batch (i + b * CONFIG.BATCH_SIZE))) operationId = true /\
       batchPosts h operationId images (i + b * CONFIG.BATCH_SIZE) evs) /\
    ((c = Returned /\ length groups = ((length images - i + 9) / 10)%nat) \/
     (c = Threw (js "Operation cancelled") /\
      (i + length groups * CONFIG.BATCH_SIZE < length images)%nat /\
      Op.isActive (operationAt h (at_batch (i + length groups * CONFIG.BATCH_SIZE)))
                  operationId = false)).
Proof.
  assert (forall i st, (length images <= i)%nat ->
    exists c groups st',
      Some (Returned, st) = Some (c, st') /\
      f_trace st' = f_trace st ++ concat groups /\
      (forall b evs, groups !! b = Some evs ->
         Op.isActive (operationAt h (at_batch (i + b * CONFIG.BATCH_SIZE))) operationId = true /\
         batchPosts h operationId images (i + b * CONFIG.BATCH_SIZE) evs) /\
      ((c = Returned /\ length groups = ((length images - i + 9) / 10)%nat) \/
       (c = Threw (js "Operation cancelled") /\
        (i + length groups * CONFIG.BATCH_SIZE < length images)%nat /\
        Op.isActive (operationAt h (at_batch (i + length groups * CONFIG.BATCH_SIZE)))
                    operationId = false))) as finished.
  { intros i st Hge. exists Returned, [], st. split; [done|].
    split; [by rewrite app_nil_r|]. split; [by intros b evs; rewrite lookup_nil|].
    left. split; [done|]. replace (length images - i + 9)%nat with 9%nat by lia. done. }
  induction fuel as [|fuel IH]; intros i st Hfuel.
  - simpl. destruct (Nat.ltb_spec i (length images)); [lia|]. by apply finished.
  - rewrite batchLoop_step.
    destruct (Nat.ltb_spec i (length images)) as [Hlt|Hge]; [|by apply finished].
    destruct (Op.isActive (operationAt h (at_batch i)) operationId) eqn:Hact; cbn [negb].
    2: { exists (Threw (js "Operation cancelled")), [], st. split; [done|].
         split; [by rewrite app_nil_r|]. split; [by intros b evs; rewrite lookup_nil|].
         right. split; [done|]. simpl. rewrite Nat.add_0_r. by split. }
    destruct (IH (i + CONFIG.BATCH_SIZE)%nat
                 (runBatch h operationId images startTime i st))
      as (c & groups & st' & E & Ht & Hgroups & Hc); [unfold CONFIG.BATCH_SIZE; lia|].
    rewrite runBatch_spec in Ht. cbn [f_trace] in Ht.
    exists c.
    exists ((batchReady (successes (batchResults h operationId images i)) ++
             [fetchingProgress
                (N.min (N.of_nat (i + CONFIG.BATCH_SIZE)) (N.of_nat (length images)))
                (N.of_nat (length images)) (h_now h (f_reads st) - startTime)])
            :: groups).
    exists st'. split; [done|]. split; [by rewrite Ht; simpl; rewrite <- !app_assoc|].
    split.
    + intros [|b] evs Hb; simpl in Hb.
      * injection Hb as <-.
        replace (i + 0 * CONFIG.BATCH_SIZE)%nat with i by lia. split; [done|].
        unfold batchPosts, fetchingProgress, batchResults. cbv zeta.
        eexists _, _. reflexivity.
      * apply Hgroups in Hb.
        by replace (i + S b * CONFIG.BATCH_SIZE)%nat
             with (i + CONFIG.BATCH_SIZE + b * CONFIG.BATCH_SIZE)%nat by lia.
    + destruct Hc as [[-> Hlen] | (-> & Hlen & Hoff)].
      * left. split; [done|]. cbn [length]. rewrite Hlen. unfold CONFIG.BATCH_SIZE.
        destruct (le_lt_dec 10 (length images - i)) as [Hbig|Hsmall].
        -- replace (length images - i + 9)%nat
             with (length images - (i + 10) + 9 + 1 * 10)%nat by lia.
           rewrite Nat.div_add by lia. lia.
        -- replace (length images - (i + 10) + 9)%nat with 9%nat by lia.
           change (9 / 10)%nat with 0%nat.
           rewrite <- (Nat.div_unique (length images - i + 9) 10 1 (length images - i - 1));
             lia.
      * right. split; [done|]. cbn [length].
        replace (i + S (length groups) * CONFIG.BATCH_SIZE)%nat
          with (i + CONFIG.BATCH_SIZE + length groups * CONFIG.BATCH_SIZE)%nat by lia.
        by split.
Qed.

(** C10. A fetch always ends, and no [images-batch-ready] it posts carries
    an empty list.  The effects of one batch are, in this order: one
    [images-batch-ready] with the fetched items when at least one item was
    fetched, nothing otherwise; then one progress message.  A fetch that
    starts while its operation is current posts, between its two opening
    messages and what closes it, these messages for each batch it runs, in
    order: all batches when it returns, and the batches before the first
    batch head where the operation is not current when it throws.  A fetch
    whose operation is not current on entry posts nothing. *)
Theorem batch_ready_iff_some_success :
  (forall (h : Host) (msg : DownloadMsg) (operationId : Z),
     exists c t, fetchImageBytes h msg operationId = Some (c, t) /\ readyNonEmpty t) /\
  (forall (h : Host) (operationId : Z) (images : list FoundImageInfo)
          (startTime : Z) (i : nat) (st : FetchState),
     exists ready processed total elapsed,
       f_trace (runBatch h operationId images startTime i st) =
       f_trace st ++ ready ++ [fetchingProgress processed total elapsed] /\
       ((exists v, fulfilled v ∈ batchResults h operationId images i) ->
        ready = [Post (images_batch_ready
                         (successes (batchResults h operationId images i)))] /\
        successes (batchResults h operationId images i) <> []) /\
       ((forall v, fulfilled v ∉ batchResults h operationId images i) -> ready = [])) /\
  (forall (h : Host) (msg : DownloadMsg) (operationId : Z),
     Op.isActive (operationAt h at_entry) operationId = true ->
     exists c groups failed,
       fetchImageBytes h msg operationId =
       Some (c, openingMessages msg ++ concat groups ++
                fetchTail c failed (N.of_nat (length (d_images msg)))
                          (Op.isActive (operationAt h at_end) operationId)) /\
       (forall b evs, groups !! b = Some evs ->
          Op.isActive (operationAt h (at_batch (b * CONFIG.BATCH_SIZE))) operationId = true /\
          batchPosts h operationId (d_images msg) (b * CONFIG.BATCH_SIZE) evs) /\
       ((c = Returned /\ length groups = ((length (d_images msg) + 9) / 10)%nat) \/
        (c = Threw (js "Operation cancelled") /\
         (length groups * CONFIG.BATCH_SIZE < length (d_images msg))%nat /\
         Op.isActive (operationAt h (at_batch (length groups * CONFIG.BATCH_SIZE)))
                     operationId = false))) /\
  (forall (h : Host) (msg : DownloadMsg) (operationId : Z),
     Op.isActive (operationAt h at_entry) operationId = false ->
     fetchImageBytes h msg operationId = Some (Returned, [])).
Proof.
  split; [|split; [|split]].
  - intros h msg op. unfold fetchImageBytes.
    destruct (negb _).
    { eexists _, _. split; [done|]. by intros l ?%elem_of_nil. }
    edestruct (batchLoop_ready h op (d_images msg) (h_now h 0%nat)
                 (length (d_images msg)) 0) as (c & st' & -> & Hne); [simpl; lia | |].
    { intros l [[=]|[[=]|[]%elem_of_nil]%elem_of_cons]%elem_of_cons. }
    destruct c as [|e]; [|by eexists _, _].
    eexists _, _. split; [done|].
    intros l. rewrite !elem_of_app. intros [Hl|[Hl|Hl]]; [by apply Hne | |].
    + destruct (0 <? failedCount st'); [|by apply elem_of_nil in Hl].
      by apply list_elem_of_singleton in Hl.
    + destruct (Op.isActive _ _); [|by apply elem_of_nil in Hl].
      by apply elem_of_cons in Hl as [[=]|[=]%list_elem_of_singleton].
  - intros h op images startTime i st. rewrite runBatch_spec. simpl.
    eexists _, _, _, _. split; [done|]. split.
    + intros [v Hv]. apply successes_elem in Hv.
      destruct (successes _) as [|x l]; [by apply elem_of_nil in Hv | done].
    + intros Hnone. destruct (successes _) as [|x l] eqn:E; [done|].
      exfalso. apply (Hnone x), successes_elem. rewrite E. apply list_elem_of_here.
  - intros h msg op Hact. unfold fetchImageBytes. rewrite Hact. cbn [negb].
    edestruct (batchLoop_groups h op (d_images msg) (h_now h 0%nat)
                 (length (d_images msg)) 0)
      as (c & groups & st' & -> & Ht & Hgroups & Hc); [simpl; lia|].
    cbn [f_trace] in Ht. rewrite Nat.sub_0_r in Hc.
    exists c, groups, (failedCount st'). split; [|split; [exact Hgroups | exact Hc]].
    destruct Hc as [[-> _] | (-> & _)]; rewrite Ht; unfold openingMessages, fetchTail.
    + by rewrite <- !app_assoc.
    + by rewrite app_nil_r.
  - intros h msg op Hact. unfold fetchImageBytes. by rewrite Hact.
Qed.

Lemma batch_ready_iff_some_success_witness :
  (exists ready processed total elapsed,
     f_trace (runBatch sampleHost 7 (d_images sampleDownload) 0 0 (mkFetch 0 1 [])) =
     [] ++ ready ++ [fetchingProgress processed total elapsed] /\
     ready = [Post (images_batch_ready
                      (successes (batchResults sampleHost 7 (d_images sampleDownload) 0)))]) /\
  (exists c groups failed,
     fetchImageBytes sampleHost sampleDownload 7 =
     Some (c, openingMessages sampleDownload ++ concat groups ++
              fetchTail c failed 3 true) /\
     length groups = 1%nat).
Proof.
  destruct batch_ready_iff_some_success as (_ & H & Hfetch & _).
  split.
  - destruct (H sampleHost 7%Z (d_images sampleDownload) 0%Z 0%nat (mkFetch 0 1%nat []))
      as (ready & processed & total & elapsed & E & Hsome & _).
    exists ready, processed, total, elapsed. split; [exact E|].
    apply Hsome.
    remember (batchResults sampleHost 7 (d_images sampleDownload) 0) as rs eqn:Ers.
    vm_compute in Ers. subst rs. eexists. apply list_elem_of_here.
  - destruct (Hfetch sampleHost sampleDownload 7%Z) as (c & groups & failed & E & _ & Hc);
      [reflexivity|].
    exists c, groups, failed. split; [exact E|].
    destruct Hc as [[_ Hlen] | (_ & _ & Hoff)]; [exact Hlen | discriminate Hoff].
Defined.

Section FetchAllActive.

Variable h : Host.
Variable operationId : Z.
Variable images : list FoundImageInfo.
Variable startTime : Z.

Hypothesis active : forall p, Op.isActive (operationAt h p) operationId = true.

Lemma batchResults_take i :
  batchResults h operationId images i =
  take CONFIG.BATCH_SIZE (resultsFrom h operationId images i).
Proof.
  unfold batchResults, resultsFrom. apply list_eq. intros k.
  rewrite list_lookup_imap.
  destruct (decide (k < CONFIG.BATCH_SIZE)%nat) as [Hk|Hk].
  - by rewrite !lookup_take_lt, list_lookup_imap by done.
  - by rewrite !lookup_take_ge by lia.
Qed.

Lemma resultsFrom_drop i :
  resultsFrom h operationId images (i + CONFIG.BATCH_SIZE) =
  drop CONFIG.BATCH_SIZE (resultsFrom h operationId images i).
Proof.
  unfold resultsFrom. apply list_eq. intros k.
  rewrite lookup_drop, !list_lookup_imap, !lookup_drop.
  replace (i + CONFIG.BATCH_SIZE + k)%nat with (i + (CONFIG.BATCH_SIZE + k))%nat by lia.
  done.
Qed.

Lemma resultsFrom_end i : (length images <= i)%nat -> resultsFrom h operationId images i = [].
Proof. intros H. unfold resultsFrom. by rewrite drop_ge. Qed.

(** While the operation stays current the loop runs every batch: it
    counts the rejected items, and what it posts are batch messages whose
    items are fulfilled outcomes of items of [images]. *)
Lemma batchLoop_active : forall fuel i st,
  (length images <= i + fuel)%nat ->
  exists reads added,
    batchLoop h operationId images startTime fuel i st =
    Some (Returned,
          mkFetch (failedCount st + N.of_nat (failures (resultsFrom h operationId images i)))
                  reads (f_trace st ++ added)) /\
    Forall (fun e => isBatchEvent e = true) added /\
    forall l v, Post (images_batch_ready l) ∈ added -> v ∈ l ->
      exists k info, images !! k = Some info /\
                     fetchOne h operationId k info = fulfilled v.
Proof.
  assert (forall i st, (length images <= i)%nat ->
    exists reads added,
      Some (Returned, st) =
      Some (Returned,
            mkFetch (failedCount st + N.of_nat (failures (resultsFrom h operationId images i)))
                    reads (f_trace st ++ added)) /\
      Forall (fun e => isBatchEvent e = true) added /\
      forall l v, Post (images_batch_ready l) ∈ added -> v ∈ l ->
        exists k info, images !! k = Some info /\
                       fetchOne h operationId k info = fulfilled v) as done_.
  { intros i st Hge. exists (f_reads st), [].
    rewrite resultsFrom_end by lia. simpl. rewrite N.add_0_r, app_nil_r.
    split; [by destruct st|]. split; [done|]. by intros l v ?%elem_of_nil. }
  induction fuel as [|fuel IH]; intros i st Hfuel.
  - simpl. destruct (Nat.ltb_spec i (length images)); [lia|]. by apply done_.
  - rewrite batchLoop_step.
    destruct (Nat.ltb_spec i (length images)) as [Hlt|Hge]; [|by apply done_].
    rewrite active. cbn [negb].
    destruct (IH (i + CONFIG.BATCH_SIZE)%nat
                 (runBatch h operationId images startTime i st))
      as (reads & added & E & Hall & Hitems); [unfold CONFIG.BATCH_SIZE; lia|].
    rewrite E, runBatch_spec. cbn [failedCount f_trace f_reads].
    exists reads,
      (batchReady (successes (batchResults h operationId images i)) ++
       fetchingProgress
         (N.min (N.of_nat (i + CONFIG.BATCH_SIZE)) (N.of_nat (length images)))
         (N.of_nat (length images)) (h_now h (f_reads st) - startTime) :: added).
    split; [|split].
    + f_equal. f_equal. f_equal; [|by rewrite <- !app_assoc].
      rewrite resultsFrom_drop, batchResults_take.
      rewrite <- (take_drop CONFIG.BATCH_SIZE (resultsFrom h operationId images i)) at 3.
      rewrite failures_app. lia.
    + apply Forall_app. split; [|apply Forall_cons; split; [done|exact Hall]].
      apply Forall_forall. by intros e [-> _]%batchReady_elem.
    + intros l v. rewrite elem_of_app, batchReady_elem, elem_of_cons.
      intros [[[= ->] _]|[[=]|Hl]] Hv; [|by eapply Hitems].
      apply successes_elem, batchResults_elem in Hv as (k & info & _ & Hk & Hf).
      by exists k, info.
Qed.

(** With one rejected item and all others fulfilled, one failure is
    counted. *)
Lemma failures_one (rs : list (Settled FetchedImageInfo)) : forall j,
  (exists m, rs !! j = Some (rejected m)) ->
  (forall k r, rs !! k = Some r -> k <> j -> exists v, r = fulfilled v) ->
  failures rs = 1%nat.
Proof.
  assert (forall l : list (Settled FetchedImageInfo),
            (forall k r, l !! k = Some r -> exists v, r = fulfilled v) ->
            failures l = 0%nat) as zero.
  { induction l as [|r l IHl]; intros Hl; [done|].
    destruct (Hl 0%nat r eq_refl) as [v ->]. simpl.
    apply IHl. intros k r' Hk. by apply (Hl (S k)). }
  induction rs as [|r rs IH]; intros j [m Hj] Hothers.
  - by rewrite lookup_nil in Hj.
  - destruct j as [|j]; simpl in Hj.
    + injection Hj as ->. simpl. f_equal. apply zero.
      intros k r Hk. by apply (Hothers (S k)).
    + destruct (Hothers 0%nat r eq_refl) as [v ->]; [lia|]. simpl.
      apply (IH j); [by exists m|].
      intros k r Hk Hne. apply (Hothers (S k)); [done | lia].
Qed.

(** An item whose bytes exceed the ceiling at every attempt is rejected
    after the last attempt. *)
Lemma fetchOne_too_large j big :
  (forall attempt, exists img size bytes,
      getImageByHash h j attempt (hash big) = Some img /\
      getSizeAsync img = fulfilled size /\
      getBytesAsync img = fulfilled bytes /\
      CONFIG.MAX_FILE_SIZE < u8_length bytes) ->
  fetchOne h operationId j big =
  rejected (js "Failed to fetch after 3 attempts: " ++ tooLargeMessage).
Proof.
  intros Hbig.
  assert (forall attempt, tryFetch h j attempt big = rejected tooLargeMessage) as Htry.
  { intros a. destruct (Hbig a) as (img & size & bytes & E1 & E2 & E3 & Hlen).
    unfold tryFetch. rewrite E1, E2, E3.
    destruct (N.ltb_spec CONFIG.MAX_FILE_SIZE (u8_length bytes)); [done | lia]. }
  unfold fetchOne, CONFIG.MAX_RETRY_ATTEMPTS. cbn [retryLoop].
  rewrite !Htry, !active. reflexivity.
Qed.

End FetchAllActive.

(** C8. When the operation stays current, one image is over the size
    ceiling at every attempt and every other item is fetched, the fetch
    returns after posting: the two opening messages; the batch messages,
    none of which carries the oversized item; one warning, which names one
    failure and the ceiling of 100MB; the final progress message with the
    count of fetched items; and the completion message. *)
Theorem oversized_image_dropped_and_reported
    (h : Host) (msg : DownloadMsg) (operationId : Z) (j : nat) (big : FoundImageInfo) :
  (forall p, Op.isActive (operationAt h p) operationId = true) ->
  d_images msg !! j = Some big ->
  (forall attempt, exists img size bytes,
      getImageByHash h j attempt (hash big) = Some img /\
      getSizeAsync img = fulfilled size /\
      getBytesAsync img = fulfilled bytes /\
      CONFIG.MAX_FILE_SIZE < u8_length bytes) ->
  (forall k info, d_images msg !! k = Some info -> k <> j ->
      exists v, fetchOne h operationId k info = fulfilled v) ->
  let total := N.of_nat (length (d_images msg)) in
  exists batches,
    fetchImageBytes h msg operationId =
    Some (Returned,
          [Post (download_progress (js "Preparing...") 0 0 total eta_absent);
           Post (download_start (downloadType msg) (formats msg) (renamePattern msg) total)]
          ++ batches ++
          [Notify oneFailureWarning; sendingProgress (total - 1) total;
           Post download_finish]) /\
    Forall (fun e => isBatchEvent e = true) batches /\
    (forall l v, Post (images_batch_ready l) ∈ batches -> v ∈ l ->
       exists k info, k <> j /\ d_images msg !! k = Some info /\
                      fetchOne h operationId k info = fulfilled v) /\
    (exists m, fetchOne h operationId j big = rejected m).
Proof.
  intros Hact Hj Hbig Hothers total.
  pose proof (fetchOne_too_large h operationId Hact j big Hbig) as Hrej.
  destruct (batchLoop_active h operationId (d_images msg) (h_now h 0%nat) Hact
              (length (d_images msg)) 0
              (mkFetch 0 1
                 [Post (download_progress (js "Preparing...") 0 0 total eta_absent);
                  Post (download_start (downloadType msg) (formats msg)
                                       (renamePattern msg) total)]))
    as (reads & batches & E & Hall & Hitems); [simpl; lia|].
  assert (failures (resultsFrom h operationId (d_images msg) 0) = 1%nat) as Hone.
  { apply (failures_one _ j).
    - eexists. unfold resultsFrom. rewrite list_lookup_imap, drop_0, Hj. simpl.
      by rewrite Hrej.
    - intros k r. unfold resultsFrom. rewrite list_lookup_imap, drop_0.
      destruct (d_images msg !! k) as [info|] eqn:Ek; [|done].
      simpl. intros [= <-] Hne. by apply Hothers. }
  exists batches. split; [|split; [done|split]].
  - unfold fetchImageBytes. rewrite Hact. cbn [negb]. fold total.
    rewrite E, Hone. cbn [failedCount f_trace]. rewrite Hact.
    change (0 <? 0 + N.of_nat 1) with true. cbv iota.
    change (failureWarning (0 + N.of_nat 1)) with oneFailureWarning.
    change (0 + N.of_nat 1) with 1.
    by rewrite <- !app_assoc.
  - intros l v Hl Hv. destruct (Hitems l v Hl Hv) as (k & info & Hk & Hf).
    exists k, info. split; [|done].
    intros ->. rewrite Hj in Hk. injection Hk as <-. congruence.
  - by eexists.
Qed.

Lemma oversized_image_dropped_and_reported_witness :
  exists batches,
    fetchImageBytes sampleHost sampleDownload 7 =
    Some (Returned,
          [Post (download_progress (js "Preparing...") 0 0 3 eta_absent);
           Post (download_start (js "original") [] (js "") 3)]
          ++ batches ++
          [Notify oneFailureWarning; sendingProgress 2 3; Post download_finish]).
Proof.
  destruct (oversized_image_dropped_and_reported sampleHost sampleDownload 7 1
              (mkFound (js "big") (js "b") (js "Page")))
    as (batches & E & _).
  - intros p. reflexivity.
  - reflexivity.
  - intros attempt. eexists _, _, _. repeat split.
  - intros k info Hk Hne.
    destruct k as [|[|[|k]]]; simpl in Hk; try done;
      injection Hk as <-; eexists; vm_compute; reflexivity.
  - exists batches. exact E.
Defined.

(** * Further properties *)

(** ** sanitizeFileName *)

(** X1. A sanitized name is never empty, has at most 255 code units,
    contains no character of the illegal class and does not start with
    whitespace. *)
Theorem sanitize_output_safe (x : jsstring) :
  sanitizeFileName x <> [] /\
  (length (sanitizeFileName x) <= 255)%nat /\
  Forall (fun c => illegalChar c = false) (sanitizeFileName x) /\
  exists c t, sanitizeFileName x = c :: t /\ isWhiteSpace c = false.
Proof.
  destruct (sanitizeFileName_clean x) as [HL (c & t & E & Hc) Hlen].
  split; [by rewrite E|]. split; [done|]. split; [done|]. by exists c, t.
Qed.

(** X2. A name that is already safe (not empty, at most 255 code units, no
    illegal character, no whitespace at either end) is returned unchanged. *)
Theorem sanitize_keeps_safe_names (x : jsstring) :
  (1 <= length x <= 255)%nat ->
  Forall (fun c => illegalChar c = false) x ->
  trimStart x = x ->
  endsWithWhiteSpace x = false ->
  sanitizeFileName x = x.
Proof.
  intros [Hne Hlen] HL Hstart Hend.
  destruct x as [|c t]; [simpl in Hne; lia|].
  rewrite sanitizeFileName_of_clean; [by apply trimEnd_fixed|].
  split; [done | | done].
  exists c, t. split; [done|].
  simpl in Hstart. destruct (isWhiteSpace c) eqn:E; [|done].
  pose proof (trimStart_length t) as L. rewrite Hstart in L. simpl in L. lia.
Qed.

Lemma sanitize_keeps_safe_names_witness :
  sanitizeFileName (js "Hero image_1.png") = js "Hero image_1.png".
Proof.
  apply sanitize_keeps_safe_names.
  - vm_compute. lia.
  - vm_compute. repeat constructor.
  - reflexivity.
  - reflexivity.
Defined.

(** X3. The fallback [|| "image"] of [addUniqueImage] is never taken: the
    base name of a node is the sanitized name of the node. *)
Theorem base_name_is_sanitized_name (n : Located) :
  baseNameOf n = sanitizeFileName (n_name (node n)).
Proof.
  unfold baseNameOf.
  destruct (sanitizeFileName_clean (n_name (node n))) as [_ (c & t & -> & _) _].
  reflexivity.
Qed.

(** ** OperationManager *)

(** X4. After any history of [start()] and [cancel()] calls, a token is
    active exactly when the last call is a [start()] that returned it:
    [cancel()] leaves no token active, whatever came before. *)
Theorem last_call_decides_activity
    (calls : list OpCall) (c : OpCall) (m : OperationManager) (t : Z) :
  Op.isActive (runCalls (calls ++ [c]) m) t = true <-> c = call_start t.
Proof.
  unfold runCalls. rewrite fold_left_app. simpl.
  destruct c as [now|]; unfold Op.isActive; simpl.
  - rewrite Z.eqb_eq. split; [by intros -> | by intros [= ->]].
  - split; discriminate.
Qed.

(** ** Fetching one item *)

Lemma tryFetch_fulfilled h item attempt info v :
  tryFetch h item attempt info = fulfilled v -> fetchedFor info v.
Proof.
  unfold tryFetch.
  destruct (getImageByHash h item attempt (hash info)) as [img|]; [|discriminate].
  destruct (getSizeAsync img) as [size|]; [|discriminate].
  destruct (getBytesAsync img) as [bytes|]; [|discriminate].
  destruct (N.ltb_spec CONFIG.MAX_FILE_SIZE (u8_length bytes)); [discriminate|].
  intros [= <-]. by repeat split.
Qed.

(** The attempts of [fetchOne], one after the other. *)
Lemma fetchOne_attempts
    (h : Host) (operationId : Z) (item : nat) (info : FoundImageInfo)
    (v : FetchedImageInfo) :
  fetchOne h operationId item info = fulfilled v <->
  exists a, (1 <= a <= 3)%nat /\
    tryFetch h item a info = fulfilled v /\
    forall b, (1 <= b < a)%nat ->
      (exists m, tryFetch h item b info = rejected m) /\
      Op.isActive (operationAt h (at_retry item b)) operationId = true.
Proof.
  unfold fetchOne, CONFIG.MAX_RETRY_ATTEMPTS. cbn [retryLoop Nat.eqb].
  split.
  - destruct (tryFetch h item 1 info) as [v1|m1] eqn:E1.
    { intros [= ->]. exists 1%nat. repeat split; [lia.. | done | lia | lia]. }
    destruct (Op.isActive (operationAt h (at_retry item 1)) operationId) eqn:A1;
      cbn [negb]; [|discriminate].
    destruct (tryFetch h item 2 info) as [v2|m2] eqn:E2.
    { intros [= ->]. exists 2%nat. split; [lia|]. split; [done|].
      intros b Hb. assert (b = 1%nat) as -> by lia. split; [by eexists | done]. }
    destruct (Op.isActive (operationAt h (at_retry item 2)) operationId) eqn:A2;
      cbn [negb]; [|discriminate].
    destruct (tryFetch h item 3 info) as [v3|m3] eqn:E3; [|discriminate].
    intros [= ->]. exists 3%nat. split; [lia|]. split; [done|].
    intros b Hb. assert (b = 1 \/ b = 2)%nat as [-> | ->] by lia;
      (split; [by eexists | done]).
  - intros (a & Ha & Hv & Hprev).
    assert (a = 1 \/ a = 2 \/ a = 3)%nat as [-> | [-> | ->]] by lia.
    + by rewrite Hv.
    + destruct (Hprev 1%nat) as [[m1 ->] ->]; [lia|]. cbn [negb]. by rewrite Hv.
    + destruct (Hprev 1%nat) as [[m1 ->] ->]; [lia|].
      destruct (Hprev 2%nat) as [[m2 ->] ->]; [lia|]. cbn [negb]. by rewrite Hv.
Qed.

(** X5. The first successful attempt wins, and an item is retried only
    while the operation is current: an item is fetched with value [v]
    exactly when one of the attempts 1 to 3 gives [v], every earlier
    attempt failed, and the operation was current after each of these
    failures. *)
Theorem fetchOne_first_success
    (h : Host) (operationId : Z) (item : nat) (info : FoundImageInfo)
    (v : FetchedImageInfo) :
  fetchOne h operationId item info = fulfilled v <->
  exists a, (1 <= a <= 3)%nat /\
    tryFetch h item a info = fulfilled v /\
    forall b, (1 <= b < a)%nat ->
      (exists m, tryFetch h item b info = rejected m) /\
      Op.isActive (operationAt h (at_retry item b)) operationId = true.
Proof. apply fetchOne_attempts. Qed.

Lemma fetchOne_first_success_witness :
  exists v, fetchOne sampleHost 7 0 (mkFound (js "h1") (js "a") (js "Page")) = fulfilled v.
Proof.
  eexists.
  apply (fetchOne_first_success sampleHost 7 0 (mkFound (js "h1") (js "a") (js "Page"))).
  exists 1%nat. split; [lia|]. split; [vm_compute; reflexivity|]. intros b Hb. lia.
Defined.

(** X6. When the operation is no longer current after a failed first
    attempt, the item is given up at once: it is rejected with the
    cancellation message and the host is not asked again. *)
Theorem fetchOne_gives_up_when_cancelled
    (h h' : Host) (operationId : Z) (item : nat) (info : FoundImageInfo) (m : jsstring) :
  tryFetch h item 1 info = rejected m ->
  Op.isActive (operationAt h (at_retry item 1)) operationId = false ->
  (forall hsh, getImageByHash h' item 1 hsh = getImageByHash h item 1 hsh) ->
  (forall p, operationAt h' p = operationAt h p) ->
  fetchOne h operationId item info = rejected (js "Operation cancelled during retry") /\
  fetchOne h' operationId item info = fetchOne h operationId item info.
Proof.
  intros Hm Hact Himg Hop.
  assert (tryFetch h' item 1 info = rejected m) as Hm'.
  { unfold tryFetch in *. by rewrite Himg. }
  unfold fetchOne, CONFIG.MAX_RETRY_ATTEMPTS. cbn [retryLoop Nat.eqb].
  by rewrite Hm, Hm', Hop, Hact.
Qed.

Lemma fetchOne_gives_up_when_cancelled_witness :
  fetchOne retryCancelHost 7 0 (mkFound (js "h1") (js "a") (js "Page")) =
  rejected (js "Operation cancelled during retry").
Proof.
  apply (fetchOne_gives_up_when_cancelled retryCancelHost retryCancelHost 7 0
           (mkFound (js "h1") (js "a") (js "Page"))
           (js "Image not found in Figma document.")); reflexivity.
Defined.

(** ** The batch loop *)

Section BatchLoop.

Variable h : Host.
Variable operationId : Z.
Variable images : list FoundImageInfo.
Variable startTime : Z.

Lemma successes_failures (rs : list (Settled FetchedImageInfo)) :
  (length (successes rs) + failures rs = length rs)%nat.
Proof. induction rs as [|[v|m] rs IH]; simpl; lia. Qed.

Lemma failures_none (rs : list (Settled FetchedImageInfo)) :
  (forall k r, rs !! k = Some r -> exists v, r = fulfilled v) -> failures rs = 0%nat.
Proof.
  induction rs as [|r rs IH]; intros Hall; [done|].
  destruct (Hall 0%nat r eq_refl) as [v ->]. simpl.
  apply IH. intros k r' Hk. by apply (Hall (S k)).
Qed.

Lemma delivered_app a b : delivered (a ++ b) = delivered a ++ delivered b.
Proof. apply flat_map_app. Qed.

Lemma delivered_batchReady l : delivered (batchReady l) = l.
Proof. destruct l; simpl; [done|]. by rewrite app_nil_r. Qed.

Lemma batchCycles_app a b : batchCycles (a ++ b) = (batchCycles a + batchCycles b)%nat.
Proof. unfold batchCycles. by rewrite List.filter_app, length_app. Qed.

Lemma batchCycles_batchReady l : batchCycles (batchReady l) = 0%nat.
Proof. by destruct l. Qed.

(** Whatever the host does, the loop ends; what it posts are batch
    messages; it returns or throws the cancellation error. *)
Lemma batchLoop_outcome : forall fuel i st,
  (length images <= i + fuel)%nat ->
  exists c st' added,
    batchLoop h operationId images startTime fuel i st = Some (c, st') /\
    f_trace st' = f_trace st ++ added /\
    Forall (fun e => isBatchEvent e = true) added /\
    (c = Returned \/ c = Threw (js "Operation cancelled")) /\
    (forall l v, Post (images_batch_ready l) ∈ added -> v ∈ l ->
       exists k info, images !! k = Some info /\
                      fetchOne h operationId k info = fulfilled v).
Proof.
  induction fuel as [|fuel IH]; intros i st Hfuel.
  - simpl. destruct (Nat.ltb_spec i (length images)); [lia|].
    exists Returned, st, []. rewrite app_nil_r.
    repeat split; [done | by left | by intros l v ?%elem_of_nil].
  - rewrite batchLoop_step.
    destruct (Nat.ltb_spec i (length images)) as [Hlt|Hge].
    2: { exists Returned, st, []. rewrite app_nil_r.
         repeat split; [done | by left | by intros l v ?%elem_of_nil]. }
    destruct (negb _).
    { exists (Threw (js "Operation cancelled")), st, []. rewrite app_nil_r.
      repeat split; [done | by right | by intros l v ?%elem_of_nil]. }
    destruct (IH (i + CONFIG.BATCH_SIZE)%nat
                 (runBatch h operationId images startTime i st))
      as (c & st' & added & E & Ht & Hall & Hc & Hitems);
      [unfold CONFIG.BATCH_SIZE; lia|].
    rewrite runBatch_spec in Ht. cbn [f_trace] in Ht.
    exists c, st'.
    exists (batchReady (successes (batchResults h operationId images i)) ++
            fetchingProgress
              (N.min (N.of_nat (i + CONFIG.BATCH_SIZE)) (N.of_nat (length images)))
              (N.of_nat (length images)) (h_now h (f_reads st) - startTime) :: added).
    split; [done|]. split; [by rewrite Ht, <- !app_assoc|]. split; [|split; [done|]].
    + apply Forall_app. split; [|apply Forall_cons; split; [done|exact Hall]].
      apply Forall_forall. by intros e [-> _]%batchReady_elem.
    + intros l v. rewrite elem_of_app, batchReady_elem, elem_of_cons.
      intros [[[= ->] _]|[[=]|Hl]] Hv; [|by eapply Hitems].
      apply successes_elem, batchResults_elem in Hv as (k & info & _ & Hk & Hf).
      by exists k, info.
Qed.

Hypothesis active : forall p, Op.isActive (operationAt h p) operationId = true.

(** While the operation stays current: the items delivered are the
    fulfilled outcomes in input order, and there is one progress message
    for each batch of at most [BATCH_SIZE] items. *)
Lemma batchLoop_full : forall fuel i st,
  (length images <= i + fuel)%nat ->
  exists reads added,
    batchLoop h operationId images startTime fuel i st =
    Some (Returned,
          mkFetch (failedCount st + N.of_nat (failures (resultsFrom h operationId images i)))
                  reads (f_trace st ++ added)) /\
    Forall (fun e => isBatchEvent e = true) added /\
    delivered added = successes (resultsFrom h operationId images i) /\
    batchCycles added = ((length images - i + 9) / 10)%nat.
Proof.
  induction fuel as [|fuel IH]; intros i st Hfuel.
  - simpl. destruct (Nat.ltb_spec i (length images)); [lia|].
    exists (f_reads st), []. rewrite resultsFrom_end by lia. simpl.
    rewrite N.add_0_r, app_nil_r. split; [by destruct st|]. split; [done|].
    split; [done|]. replace (length images - i + 9)%nat with 9%nat by lia. done.
  - rewrite batchLoop_step.
    destruct (Nat.ltb_spec i (length images)) as [Hlt|Hge].
    2: { exists (f_reads st), []. rewrite resultsFrom_end by lia. simpl.
         rewrite N.add_0_r, app_nil_r. split; [by destruct st|]. split; [done|].
         split; [done|]. replace (length images - i + 9)%nat with 9%nat by lia. done. }
    rewrite active. cbn [negb].
    destruct (IH (i + CONFIG.BATCH_SIZE)%nat
                 (runBatch h operationId images startTime i st))
      as (reads & added & E & Hall & Hdel & Hcyc); [unfold CONFIG.BATCH_SIZE; lia|].
    rewrite E, runBatch_spec. cbn [failedCount f_trace f_reads].
    exists reads,
      (batchReady (successes (batchResults h operationId images i)) ++
       fetchingProgress
         (N.min (N.of_nat (i + CONFIG.BATCH_SIZE)) (N.of_nat (length images)))
         (N.of_nat (length images)) (h_now h (f_reads st) - startTime) :: added).
    pose proof (take_drop CONFIG.BATCH_SIZE (resultsFrom h operationId images i)) as Esplit.
    split; [|split; [|split]].
    + f_equal. f_equal. f_equal; [|by rewrite <- !app_assoc].
      rewrite (resultsFrom_drop h operationId images), (batchResults_take h operationId images).
      rewrite <- Esplit at 3. rewrite failures_app. lia.
    + apply Forall_app. split; [|apply Forall_cons; split; [done|exact Hall]].
      apply Forall_forall. by intros e [-> _]%batchReady_elem.
    + rewrite delivered_app, delivered_batchReady. cbn [delivered flat_map fetchingProgress].
      cbn [app]. fold (delivered added). rewrite Hdel.
      rewrite (resultsFrom_drop h operationId images), (batchResults_take h operationId images).
      rewrite <- Esplit at 3. unfold successes. by rewrite omap_app.
    + rewrite batchCycles_app, batchCycles_batchReady.
      change (batchCycles (fetchingProgress ?a ?b ?c :: added))
        with (S (batchCycles added)).
      rewrite Hcyc. unfold CONFIG.BATCH_SIZE.
      destruct (le_lt_dec 10 (length images - i)) as [Hbig|Hsmall].
      * replace (length images - i + 9)%nat
          with (length images - (i + 10) + 9 + 1 * 10)%nat by lia.
        rewrite Nat.div_add by lia. lia.
      * replace (length images - (i + 10) + 9)%nat with 9%nat by lia.
        change (9 / 10)%nat with 0%nat.
        rewrite <- (Nat.div_unique (length images - i + 9) 10 1 (length images - i - 1));
          lia.
Qed.

End BatchLoop.

(** ** fetchImageBytes as a whole *)

Lemma batchEvent_not_final e : isBatchEvent e = true -> isFinal e = false.
Proof. by destruct e as [[]|]. Qed.

Lemma fetchTail_no_ready c failed total current l :
  Post (images_batch_ready l) ∉ fetchTail c failed total current.
Proof.
  destruct c, (0 <? failed) eqn:E, current; simpl; rewrite ?E; simpl; intros H;
    repeat (apply elem_of_cons in H as [H|H]; [discriminate|]);
    by apply elem_of_nil in H.
Qed.

(** The shape of every fetch that starts while the operation is current. *)
Lemma fetch_structure (h : Host) (msg : DownloadMsg) (operationId : Z) :
  Op.isActive (operationAt h at_entry) operationId = true ->
  exists c batches failed,
    fetchImageBytes h msg operationId =
    Some (c, openingMessages msg ++ batches ++
             fetchTail c failed (N.of_nat (length (d_images msg)))
                       (Op.isActive (operationAt h at_end) operationId)) /\
    Forall (fun e => isBatchEvent e = true) batches /\
    (c = Returned \/ c = Threw (js "Operation cancelled")) /\
    (forall l v, Post (images_batch_ready l) ∈ batches -> v ∈ l ->
       exists k info, d_images msg !! k = Some info /\
                      fetchOne h operationId k info = fulfilled v).
Proof.
  intros Hact. unfold fetchImageBytes. rewrite Hact. cbn [negb].
  edestruct (batchLoop_outcome h operationId (d_images msg) (h_now h 0%nat)
               (length (d_images msg)) 0) as (c & st' & added & -> & Ht & Hall & Hc & Hitems);
    [simpl; lia|].
  cbn [f_trace] in Ht. exists c, added, (failedCount st').
  split; [|done]. destruct Hc as [-> | ->]; rewrite Ht; unfold openingMessages, fetchTail.
  - by rewrite <- !app_assoc.
  - by rewrite app_nil_r.
Qed.

(** X7. Every fetch ends, by returning or by throwing the cancellation
    error.  When it throws, no warning and no completion message was
    posted; the completion message is posted only by a fetch that returns
    while its operation is still current after the last batch. *)
Theorem fetch_returns_or_throws_cancellation
    (h : Host) (msg : DownloadMsg) (operationId : Z) :
  exists c t, fetchImageBytes h msg operationId = Some (c, t) /\
    (forall m, c = Threw m ->
       m = js "Operation cancelled" /\
       (Post download_finish ∉ t) /\ forall x, Notify x ∉ t) /\
    (Post download_finish ∈ t ->
       c = Returned /\ Op.isActive (operationAt h at_end) operationId = true).
Proof.
  destruct (Op.isActive (operationAt h at_entry) operationId) eqn:Hact.
  2: { exists Returned, []. unfold fetchImageBytes. rewrite Hact. split; [done|].
       split; [discriminate | by intros ?%elem_of_nil]. }
  destruct (fetch_structure h msg operationId Hact)
    as (c & batches & failed & -> & Hall & Hc & _).
  eexists _, _. split; [done|].
  assert (forall e, e ∈ openingMessages msg ++ batches -> isFinal e = false) as Hpre.
  { intros e [He|He]%elem_of_app.
    - apply elem_of_cons in He as [->|He]; [done|].
      by apply list_elem_of_singleton in He as ->.
    - apply batchEvent_not_final. by eapply Forall_forall in Hall. }
  split.
  - intros m ->. destruct Hc as [[=]|[= ->]]. split; [done|].
    simpl. rewrite app_nil_r.
    split; [|intros x]; intros Hin%Hpre; discriminate.
  - rewrite app_assoc. intros [Hin%Hpre|Hin]%elem_of_app; [discriminate|].
    destruct Hc as [-> | ->]; [|by apply elem_of_nil in Hin].
    split; [done|]. simpl in Hin.
    destruct (Op.isActive (operationAt h at_end) operationId); [done|].
    rewrite app_nil_r in Hin. destruct (0 <? failed); [|by apply elem_of_nil in Hin].
    by apply list_elem_of_singleton in Hin.
Qed.

Lemma fetch_returns_or_throws_cancellation_witness :
  exists t, fetchImageBytes secondBatchCancelHost twelveImages 7 =
            Some (Threw (js "Operation cancelled"), t) /\
            (Post download_finish ∉ t).
Proof.
  destruct (fetch_returns_or_throws_cancellation secondBatchCancelHost twelveImages 7)
    as (c & t & E & Hthrow & _).
  vm_compute in E. injection E as <- <-.
  eexists. split; [vm_compute; reflexivity|].
  by destruct (Hthrow _ eq_refl) as (_ & H & _).
Defined.

(** X8. Whatever the host does, every item of every [images-batch-ready]
    message was made for an image of the request: it carries that image's
    hash, name and frame, its size is the length of its bytes and at most
    [MAX_FILE_SIZE], and its format is the one sniffed from its bytes. *)
Theorem delivered_items_are_well_formed
    (h : Host) (msg : DownloadMsg) (operationId : Z) :
  exists c t, fetchImageBytes h msg operationId = Some (c, t) /\
    forall l v, Post (images_batch_ready l) ∈ t -> v ∈ l ->
      exists info, info ∈ d_images msg /\ fetchedFor info v.
Proof.
  destruct (Op.isActive (operationAt h at_entry) operationId) eqn:Hact.
  2: { exists Returned, []. unfold fetchImageBytes. rewrite Hact. split; [done|].
       by intros l v ?%elem_of_nil. }
  destruct (fetch_structure h msg operationId Hact)
    as (c & batches & failed & -> & Hall & Hc & Hitems).
  eexists _, _. split; [done|]. intros l v Hl Hv.
  assert (Post (images_batch_ready l) ∈ batches) as Hb.
  { apply elem_of_app in Hl as [Hl|Hl].
    { by apply elem_of_cons in Hl as [[=]|[=]%list_elem_of_singleton]. }
    apply elem_of_app in Hl as [Hl|Hl]; [done|].
    by apply fetchTail_no_ready in Hl. }
  destruct (Hitems l v Hb Hv) as (k & info & Hk & Hf).
  exists info. split; [by eapply list_elem_of_lookup_2|].
  apply fetchOne_attempts in Hf as (a & _ & Ha & _).
  by eapply tryFetch_fulfilled.
Qed.

Lemma delivered_items_are_well_formed_witness :
  exists c t info, fetchImageBytes sampleHost sampleDownload 7 = Some (c, t) /\
    info ∈ d_images sampleDownload /\
    fetchedFor info (mkFetched (js "h1") (js "a") (js "Page") smallPng PNG 4 1 1).
Proof.
  destruct (delivered_items_are_well_formed sampleHost sampleDownload 7)
    as (c & t & E & H).
  assert (E' := E). vm_compute in E'. injection E' as Ec Et.
  edestruct H as (info & Hin & Hv).
  - rewrite <- Et. apply list_elem_of_further, list_elem_of_further, list_elem_of_here.
  - apply list_elem_of_here.
  - exists c, t, info. split; [exact E|]. split; [exact Hin | exact Hv].
Defined.

Section FetchWhileCurrent.

Variable h : Host.
Variable msg : DownloadMsg.
Variable operationId : Z.

Hypothesis active : forall p, Op.isActive (operationAt h p) operationId = true.

Lemma fetch_current_structure :
  exists batches,
    fetchImageBytes h msg operationId =
    Some (Returned,
          openingMessages msg ++ batches ++
          closingMessages
            (N.of_nat (failures (resultsFrom h operationId (d_images msg) 0)))
            (N.of_nat (length (d_images msg)))) /\
    Forall (fun e => isBatchEvent e = true) batches /\
    delivered batches = successes (resultsFrom h operationId (d_images msg) 0) /\
    batchCycles batches = ((length (d_images msg) + 9) / 10)%nat.
Proof.
  unfold fetchImageBytes. rewrite active. cbn [negb].
  edestruct (batchLoop_full h operationId (d_images msg) (h_now h 0%nat) active
               (length (d_images msg)) 0) as (reads & batches & -> & Hall & Hdel & Hcyc);
    [simpl; lia|].
  cbn [failedCount f_trace]. rewrite active, N.add_0_l.
  exists batches. rewrite Nat.sub_0_r in Hcyc.
  split; [|done]. unfold openingMessages, closingMessages. by rewrite <- !app_assoc.
Qed.

Lemma resultsFrom_length : length (resultsFrom h operationId (d_images msg) 0) = length (d_images msg).
Proof. unfold resultsFrom. by rewrite length_imap, drop_0. Qed.

Lemma delivered_closing failed total : delivered (closingMessages failed total) = [].
Proof. unfold closingMessages. by destruct (0 <? failed). Qed.

End FetchWhileCurrent.

(** X9. While the operation stays current, a fetch delivers exactly the
    items that could be fetched, each once and in the order of the request
    (whatever the batches they fall in), and its final progress message
    counts the delivered items. *)
Theorem delivery_in_request_order
    (h : Host) (msg : DownloadMsg) (operationId : Z) :
  (forall p, Op.isActive (operationAt h p) operationId = true) ->
  exists t,
    fetchImageBytes h msg operationId = Some (Returned, t) /\
    delivered t = successes (imap (fetchOne h operationId) (d_images msg)) /\
    exists before,
      t = before ++ [sendingProgress (N.of_nat (length (delivered t)))
                                     (N.of_nat (length (d_images msg)));
                     Post download_finish].
Proof.
  intros active.
  destruct (fetch_current_structure h msg operationId active)
    as (batches & -> & Hall & Hdel & _).
  eexists. split; [done|].
  assert (resultsFrom h operationId (d_images msg) 0 =
          imap (fetchOne h operationId) (d_images msg)) as Eres.
  { unfold resultsFrom. by rewrite drop_0. }
  assert (delivered (openingMessages msg ++ batches ++
            closingMessages
              (N.of_nat (failures (resultsFrom h operationId (d_images msg) 0)))
              (N.of_nat (length (d_images msg)))) =
          successes (imap (fetchOne h operationId) (d_images msg))) as Ed.
  { rewrite !delivered_app, delivered_closing, app_nil_r, Hdel, Eres. done. }
  split; [exact Ed|]. rewrite Ed.
  pose proof (successes_failures (imap (fetchOne h operationId) (d_images msg))) as Hcount.
  rewrite length_imap in Hcount. rewrite Eres.
  replace (N.of_nat (length (successes (imap (fetchOne h operationId) (d_images msg)))))
    with (N.of_nat (length (d_images msg)) -
          N.of_nat (failures (imap (fetchOne h operationId) (d_images msg)))) by lia.
  unfold closingMessages. rewrite !app_assoc. by eexists.
Qed.

Lemma delivery_in_request_order_witness :
  exists t,
    fetchImageBytes sampleHost sampleDownload 7 = Some (Returned, t) /\
    delivered t = [mkFetched (js "h1") (js "a") (js "Page") smallPng PNG 4 1 1;
                   mkFetched (js "h3") (js "c") (js "Page") smallPng PNG 4 1 1].
Proof.
  destruct (delivery_in_request_order sampleHost sampleDownload 7)
    as (t & E & Hd & _); [by intros p|].
  exists t. split; [exact E|]. rewrite Hd. vm_compute. reflexivity.
Defined.

(** X10. While the operation stays current, a fetch of [n] images runs
    [ceil(n / BATCH_SIZE)] batches: between the two opening messages and
    the closing messages there is exactly one progress message for each
    batch, so 12 images give two of them. *)
Theorem one_progress_message_per_batch
    (h : Host) (msg : DownloadMsg) (operationId : Z) :
  (forall p, Op.isActive (operationAt h p) operationId = true) ->
  exists batches failed,
    fetchImageBytes h msg operationId =
    Some (Returned,
          openingMessages msg ++ batches ++
          closingMessages failed (N.of_nat (length (d_images msg)))) /\
    Forall (fun e => isBatchEvent e = true) batches /\
    batchCycles batches = ((length (d_images msg) + 9) / 10)%nat.
Proof.
  intros active.
  destruct (fetch_current_structure h msg operationId active)
    as (batches & E & Hall & _ & Hcyc).
  by eexists _, _.
Qed.

Lemma one_progress_message_per_batch_witness :
  exists batches failed,
    fetchImageBytes missingHost twelveImages 7 =
    Some (Returned, openingMessages twelveImages ++ batches ++ closingMessages failed 12) /\
    batchCycles batches = 2%nat.
Proof.
  destruct (one_progress_message_per_batch missingHost twelveImages 7)
    as (batches & failed & E & _ & Hcyc); [by intros p|].
  by exists batches, failed.
Defined.

(** X11. While the operation stays current and every item can be fetched,
    no warning is shown and the final progress message reports all the
    images of the request. *)
Theorem all_fetched_means_no_warning
    (h : Host) (msg : DownloadMsg) (operationId : Z) :
  (forall p, Op.isActive (operationAt h p) operationId = true) ->
  (forall k info, d_images msg !! k = Some info ->
     exists v, fetchOne h operationId k info = fulfilled v) ->
  exists batches,
    fetchImageBytes h msg operationId =
    Some (Returned,
          openingMessages msg ++ batches ++
          [sendingProgress (N.of_nat (length (d_images msg)))
                           (N.of_nat (length (d_images msg)));
           Post download_finish]) /\
    Forall (fun e => isBatchEvent e = true) batches /\
    length (delivered batches) = length (d_images msg).
Proof.
  intros active Hall.
  destruct (fetch_current_structure h msg operationId active)
    as (batches & E & Hev & Hdel & _).
  assert (failures (resultsFrom h operationId (d_images msg) 0) = 0%nat) as Hzero.
  { apply failures_none. intros k r. unfold resultsFrom.
    rewrite list_lookup_imap, drop_0.
    destruct (d_images msg !! k) as [info|] eqn:Ek; [|done].
    simpl. intros [= <-]. by apply Hall. }
  exists batches. split; [|split; [done|]].
  - rewrite E, Hzero. unfold closingMessages. simpl. by rewrite N.sub_0_r.
  - rewrite Hdel.
    pose proof (successes_failures (resultsFrom h operationId (d_images msg) 0)) as Hc.
    rewrite Hzero, resultsFrom_length in Hc. lia.
Qed.

Lemma all_fetched_means_no_warning_witness :
  exists batches,
    fetchImageBytes smallHost twelveImages 7 =
    Some (Returned,
          openingMessages twelveImages ++ batches ++
          [sendingProgress 12 12; Post download_finish]).
Proof.
  destruct (all_fetched_means_no_warning smallHost twelveImages 7)
    as (batches & E & _).
  - by intros p.
  - intros k info Hk. eexists.
    apply fetchOne_attempts. exists 1%nat.
    split; [lia|]. split; [reflexivity|]. intros b Hb. lia.
  - by exists batches.
Defined.

(** A fetch stops at the first batch head where its operation is not
    current. *)
Lemma fetch_cancelled_at_batch
    (h : Host) (msg : DownloadMsg) (operationId : Z) (b : nat) :
  Op.isActive (operationAt h at_entry) operationId = true ->
  (b * CONFIG.BATCH_SIZE < length (d_images msg))%nat ->
  Op.isActive (operationAt h (at_batch (b * CONFIG.BATCH_SIZE))) operationId = false ->
  exists batches,
    fetchImageBytes h msg operationId =
    Some (Threw (js "Operation cancelled"), openingMessages msg ++ batches) /\
    Forall (fun e => isBatchEvent e = true) batches /\
    (batchCycles batches <= b)%nat.
Proof.
  intros Hact Hb Hoff. unfold fetchImageBytes. rewrite Hact. cbn [negb].
  set (st0 := mkFetch 0 1 _).
  assert (forall fuel i st k,
    (length (d_images msg) <= i + fuel)%nat ->
    (i + k * CONFIG.BATCH_SIZE < length (d_images msg))%nat ->
    Op.isActive (operationAt h (at_batch (i + k * CONFIG.BATCH_SIZE))) operationId = false ->
    exists reads failed added,
      batchLoop h operationId (d_images msg) (h_now h 0%nat) fuel i st =
      Some (Threw (js "Operation cancelled"), mkFetch failed reads (f_trace st ++ added)) /\
      Forall (fun e => isBatchEvent e = true) added /\
      (batchCycles added <= k)%nat) as loop.
  { induction fuel as [|fuel IH]; intros i st k Hfuel Hk Hoffk; [lia|].
    rewrite batchLoop_step.
    destruct (Nat.ltb_spec i (length (d_images msg))) as [Hlt|Hge]; [|lia].
    destruct (Op.isActive (operationAt h (at_batch i)) operationId) eqn:Hi; cbn [negb].
    2: { exists (f_reads st), (failedCount st), []. rewrite app_nil_r.
         split; [by destruct st|]. split; [done | apply Nat.le_0_l]. }
    destruct k as [|k]; [rewrite Nat.add_0_r in Hoffk; congruence|].
    destruct (IH (i + CONFIG.BATCH_SIZE)%nat
                 (runBatch h operationId (d_images msg) (h_now h 0%nat) i st) k)
      as (reads & failed & added & E & Hall & Hcyc);
      [unfold CONFIG.BATCH_SIZE; lia | | |];
      [replace (i + CONFIG.BATCH_SIZE + k * CONFIG.BATCH_SIZE)%nat
         with (i + S k * CONFIG.BATCH_SIZE)%nat by lia; done ..|].
    rewrite E, runBatch_spec. cbn [f_trace].
    exists reads, failed.
    exists (batchReady (successes (batchResults h operationId (d_images msg) i)) ++
            fetchingProgress
              (N.min (N.of_nat (i + CONFIG.BATCH_SIZE)) (N.of_nat (length (d_images msg))))
              (N.of_nat (length (d_images msg))) (h_now h (f_reads st) - h_now h 0%nat)
            :: added).
    split; [by rewrite <- !app_assoc|]. split.
    - apply Forall_app. split; [|apply Forall_cons; split; [done|exact Hall]].
      apply Forall_forall. by intros e [-> _]%batchReady_elem.
    - rewrite batchCycles_app, batchCycles_batchReady.
      change (batchCycles (fetchingProgress ?x ?y ?z :: added))
        with (S (batchCycles added)). lia. }
  destruct (loop (length (d_images msg)) 0%nat st0 b)
    as (reads & failed & added & -> & Hall & Hcyc); [simpl; lia | done | done |].
  exists added. by cbn [f_trace st0].
Qed.

(** X12. A fetch that finds its operation not current at the head of a
    batch throws the cancellation error there: the batches before it have
    been delivered, nothing of that batch or of later ones is fetched, and
    neither a warning nor the completion message follows. *)
Theorem cancelled_fetch_throws
    (h : Host) (msg : DownloadMsg) (operationId : Z) (b : nat) :
  Op.isActive (operationAt h at_entry) operationId = true ->
  (b * CONFIG.BATCH_SIZE < length (d_images msg))%nat ->
  Op.isActive (operationAt h (at_batch (b * CONFIG.BATCH_SIZE))) operationId = false ->
  exists batches,
    fetchImageBytes h msg operationId =
    Some (Threw (js "Operation cancelled"), openingMessages msg ++ batches) /\
    Forall (fun e => isBatchEvent e = true) batches /\
    (batchCycles batches <= b)%nat.
Proof. apply fetch_cancelled_at_batch. Qed.

Lemma cancelled_fetch_throws_witness :
  exists batches,
    fetchImageBytes secondBatchCancelHost twelveImages 7 =
    Some (Threw (js "Operation cancelled"), openingMessages twelveImages ++ batches) /\
    (batchCycles batches <= 1)%nat.
Proof.
  destruct (cancelled_fetch_throws secondBatchCancelHost twelveImages 7 1)
    as (batches & E & _ & Hcyc).
  - reflexivity.
  - vm_compute. lia.
  - reflexivity.
  - by exists batches.
Defined.

(** ** The message handler *)

Section Handler.

Variable uiReadyAt : nat -> bool.

Lemma pollUiReady_Some : forall fuel k0 k,
  pollUiReady uiReadyAt fuel k0 = Some k ->
  (k0 <= k <= k0 + fuel)%nat /\ uiReadyAt k = true /\
  forall j, (k0 <= j < k)%nat -> uiReadyAt j = false.
Proof.
  induction fuel as [|fuel IH]; intros k0 k; simpl;
    destruct (uiReadyAt k0) eqn:E0; try discriminate.
  - intros [= <-]. split; [lia|]. split; [done|]. lia.
  - intros [= <-]. split; [lia|]. split; [done|]. lia.
  - intros (Hk & Hr & Hprev)%IH. split; [lia|]. split; [done|].
    intros j Hj. destruct (decide (j = k0)) as [->|]; [done|]. apply Hprev. lia.
Qed.

Lemma pollUiReady_ready : forall fuel k0 k,
  (k0 <= k <= k0 + fuel)%nat -> uiReadyAt k = true ->
  is_Some (pollUiReady uiReadyAt fuel k0).
Proof.
  induction fuel as [|fuel IH]; intros k0 k Hk Hr; simpl;
    destruct (uiReadyAt k0) eqn:E0; try done.
  - assert (k = k0) as -> by lia. congruence.
  - apply (IH _ k); [|done].
    destruct (decide (k = k0)) as [->|]; [congruence | lia].
Qed.

Lemma started_is_current now mgr :
  Op.isActive (snd (Op.start now mgr)) (fst (Op.start now mgr)) = true.
Proof. unfold Op.isActive. simpl. apply Z.eqb_refl. Qed.

End Handler.

(** X13. The handlers of [init-plugin] and [download-images] do nothing
    before the UI has reported that it is ready: each goes on exactly when
    one of its tests finds [uiReady] set, and [init-plugin] then posts the
    number of selected nodes and nothing else. *)
Theorem handlers_wait_for_ui
    (uiReadyAt : nat -> bool) (fuel : nat) (page : PageNode)
    (now : Z) (mgr : OperationManager) (h : Host) (msg : DownloadMsg) :
  (is_Some (onInitPlugin uiReadyAt fuel page) <->
   exists k, (k <= fuel)%nat /\ uiReadyAt k = true) /\
  (is_Some (onDownloadImages uiReadyAt fuel now mgr h msg) <->
   exists k, (k <= fuel)%nat /\ uiReadyAt k = true) /\
  (forall t, onInitPlugin uiReadyAt fuel page = Some t ->
     t = [Post (selection_changed (N.of_nat (length (selection page))))]).
Proof.
  assert (is_Some (pollUiReady uiReadyAt fuel 0) <->
          exists k, (k <= fuel)%nat /\ uiReadyAt k = true) as Hpoll.
  { split.
    - intros [k Hk]. apply pollUiReady_Some in Hk as (Hk & Hr & _).
      exists k. split; [lia | done].
    - intros (k & Hk & Hr). apply (pollUiReady_ready _ _ _ k); [lia | done]. }
  split; [|split].
  - rewrite <- Hpoll. unfold onInitPlugin.
    destruct (pollUiReady uiReadyAt fuel 0); split; intros [x Hx]; done.
  - rewrite <- Hpoll. unfold onDownloadImages.
    destruct (pollUiReady uiReadyAt fuel 0) as [k|]; [|split; intros [x Hx]; done].
    split; [done|]. intros _. unfold Op.start.
    destruct (fetch_structure
                (startedHost h (mkOp now false) (d_images msg)) msg now)
      as (c & batches & failed & -> & _); [apply (started_is_current now mgr)|].
    by destruct c.
  - unfold onInitPlugin. destruct (pollUiReady uiReadyAt fuel 0); [|discriminate].
    by intros t [= <-].
Qed.

Lemma handlers_wait_for_ui_witness :
  is_Some (onInitPlugin (fun k => (2 <=? k)%nat) 5 emptySelectionPage) /\
  ~ is_Some (onInitPlugin (fun _ => false) 5 emptySelectionPage).
Proof.
  split.
  - apply (handlers_wait_for_ui (fun k => (2 <=? k)%nat) 5 emptySelectionPage
             0%Z Op.init smallHost sampleDownload).
    exists 2%nat. split; [lia | reflexivity].
  - intros H.
    apply (handlers_wait_for_ui (fun _ => false) 5 emptySelectionPage
             0%Z Op.init smallHost sampleDownload) in H as (k & _ & Hk).
    discriminate.
Defined.

(** X14. Once the UI is ready, a download request whose images are an
    array is never ignored: the handler posts the two opening messages,
    then batch messages, and ends in one of three ways: with the
    completion messages, silently after the last batch when the operation
    is no longer current, or with the error message of a cancellation; it
    reports no other error for such a request.  A request without an
    images array makes the handler post one message and nothing else: the
    error with the text of the [TypeError] that reading [images.length]
    throws. *)
Theorem download_handler_outcomes
    (uiReadyAt : nat -> bool) (fuel : nat)
    (now : Z) (mgr : OperationManager) (h : Host) (typeErrorMessage : jsstring)
    (images : option (list FoundImageInfo))
    (dlType : jsstring) (fmts : list jsstring) (pattern : jsstring) :
  (exists k, (k <= fuel)%nat /\ uiReadyAt k = true) ->
  match images with
  | Some l =>
      exists batches ending,
        onDownloadMessage uiReadyAt fuel now mgr h typeErrorMessage images
                          dlType fmts pattern =
        Some (openingMessages (mkDownload l dlType fmts pattern) ++ batches ++ ending) /\
        Forall (fun e => isBatchEvent e = true) batches /\
        (ending = [Post (error cancelledMessage)] \/
         exists failed current,
           ending = fetchTail Returned failed (N.of_nat (length l)) current)
  | None =>
      onDownloadMessage uiReadyAt fuel now mgr h typeErrorMessage images
                        dlType fmts pattern =
      Some [Post (error (getUserFriendlyError typeErrorMessage))]
  end.
Proof.
  intros (k & Hk & Hr).
  destruct (pollUiReady_ready uiReadyAt fuel 0 k) as [k' Hpoll]; [lia | done |].
  destruct images as [l|]; unfold onDownloadMessage; [|by rewrite Hpoll].
  unfold onDownloadImages. rewrite Hpoll. unfold Op.start. cbn [d_images].
  destruct (fetch_structure
              (startedHost h (mkOp now false) l) (mkDownload l dlType fmts pattern) now)
    as (c & batches & failed & -> & Hall & Hc & _); [apply (started_is_current now mgr)|].
  destruct Hc as [-> | ->].
  - exists batches. eexists. split; [done|]. split; [done|]. right. by eexists _, _.
  - exists batches, [Post (error cancelledMessage)].
    split; [|split; [done | by left]].
    cbn [fetchTail]. rewrite app_nil_r, <- app_assoc. reflexivity.
Qed.

Lemma download_handler_outcomes_witness :
  (exists batches ending,
     onDownloadMessage (fun _ => true) 0 7 Op.init secondBatchCancelHost
       (js "Cannot read properties of undefined (reading 'length')")
       (Some (d_images twelveImages)) (js "original") [] (js "") =
     Some (openingMessages twelveImages ++ batches ++ ending) /\
     Forall (fun e => isBatchEvent e = true) batches) /\
  onDownloadMessage (fun _ => true) 0 7 Op.init secondBatchCancelHost
    (js "Cannot read properties of undefined (reading 'length')")
    None (js "original") [] (js "") =
  Some [Post (error (js "Cannot read properties of undefined (reading 'length')"))].
Proof.
  split.
  - destruct (download_handler_outcomes (fun _ => true) 0 7 Op.init
                secondBatchCancelHost
                (js "Cannot read properties of undefined (reading 'length')")
                (Some (d_images twelveImages)) (js "original") [] (js ""))
      as (batches & ending & E & Hall & _).
    + exists 0%nat. split; [lia | reflexivity].
    + by exists batches, ending.
  - apply (download_handler_outcomes (fun _ => true) 0 7 Op.init
             secondBatchCancelHost
             (js "Cannot read properties of undefined (reading 'length')")
             None (js "original") [] (js "")).
    exists 0%nat. split; [lia | reflexivity].
Defined.

(** X15. A download request with no image completes at once: after the
    two opening messages the handler posts the final progress message
    (0 of 0) and the completion message, without a warning. *)
Theorem empty_download_completes
    (uiReadyAt : nat -> bool) (fuel : nat)
    (now : Z) (mgr : OperationManager) (h : Host) (msg : DownloadMsg) :
  (exists k, (k <= fuel)%nat /\ uiReadyAt k = true) ->
  d_images msg = [] ->
  onDownloadImages uiReadyAt fuel now mgr h msg =
  Some (openingMessages msg ++ [sendingProgress 0 0; Post download_finish]).
Proof.
  intros (k & Hk & Hr) Hempty. unfold onDownloadImages.
  destruct (pollUiReady_ready uiReadyAt fuel 0 k) as [k' ->]; [lia | done |].
  unfold Op.start, fetchImageBytes, openingMessages, startedHost.
  rewrite Hempty. cbn [operationAt length batchLoop Nat.ltb Nat.leb].
  unfold Op.isActive. cbn [cancelled id negb andb]. rewrite Z.eqb_refl.
  reflexivity.
Qed.

Lemma empty_download_completes_witness :
  onDownloadImages (fun _ => true) 0 7 Op.init smallHost
                   (mkDownload [] (js "original") [] (js "")) =
  Some (openingMessages (mkDownload [] (js "original") [] (js "")) ++
        [sendingProgress 0 0; Post download_finish]).
Proof.
  apply empty_download_completes.
  - exists 0%nat. split; [lia | reflexivity].
  - reflexivity.
Defined.

(** ** The scan as a whole *)

Section ScanCases.

Variable w : World.
Variable operationId : Z.

Lemma visitAll_frame mgr chunk : forall s s',
  visitAll mgr operationId chunk s = Some s' ->
  trace s' = trace s /\ yields s' = yields s.
Proof.
  induction chunk as [|n chunk IH]; intros s s'; simpl.
  - by intros [= <-].
  - unfold visit. destruct (checkNodeForImages mgr operationId n (found s)); [|discriminate].
    destruct (childrenOf n); intros H%IH; exact H.
Qed.

Lemma startingScan_observed startNodes : observed w operationId (scanStart w startNodes).
Proof.
  split; [|split; [done | simpl; lia]].
  repeat constructor. simpl. unfold Qle. simpl. lia.
Qed.

Lemma report_observed s :
  Op.isActive (currentOperation w (yields s)) operationId = true ->
  observed w operationId s -> observed w operationId (report w s).
Proof.
  intros Hact (Hcap & Hlen & Hcur). unfold report.
  destruct (_ >? _)%Z; [|done].
  split; [|split]; cbn [trace yields].
  - apply Forall_app. split; [done|]. repeat constructor. simpl. apply Q.le_min_l.
  - rewrite length_app. simpl. lia.
  - intros k Hk. destruct (decide (k = yields s)) as [->|]; [done|]. apply Hcur. lia.
Qed.

Lemma scanLoop_observed : forall fuel s ex,
  scanLoop w operationId fuel s = Some ex ->
  observed w operationId s ->
  match ex with
  | Aborted s' => observed w operationId s'
  | Finished s' => observed w operationId s'
  end.
Proof.
  induction fuel as [|fuel IH]; intros s ex.
  - simpl. destruct (stack s); [|discriminate]. by intros [= <-].
  - destruct (stack s) as [|x rest] eqn:Es.
    { rewrite scanLoop_nil by done. by intros [= <-]. }
    rewrite (scanLoop_cons _ _ _ _ _ _ Es).
    destruct (Op.isActive (currentOperation w (yields s)) operationId) eqn:Hact;
      cbn [negb]; [|by intros [= <-]].
    cbv zeta.
    destruct (visitAll _ _ _ _) as [s1|] eqn:Ev; [|discriminate].
    apply visitAll_frame in Ev as [Et Ey]. cbn [trace yields] in Et, Ey.
    intros Hex Hobs. apply (IH _ _ Hex). apply report_observed.
    + by rewrite Ey.
    + destruct Hobs as (H1 & H2 & H3). unfold observed. by rewrite Et, Ey.
Qed.

(** The four ways a call of [scanImages] ends. *)
Lemma scanImages_cases page scanMode r :
  scanImages w page scanMode operationId = Some r ->
  r = mkResult [] Returned None \/
  r = mkResult [startingScan] (Threw noSelectionMessage) None \/
  (exists s, observed w operationId s /\ r = mkResult (trace s) Returned None) \/
  (exists s, observed w operationId s /\
     r = if Op.isActive (currentOperation w (yields s)) operationId
         then mkResult (trace s ++ [Post (scan_complete (map_values (uniqueImages (found s))))])
                       Returned (Some (map_values (uniqueImages (found s))))
         else mkResult (trace s) Returned (Some (map_values (uniqueImages (found s))))).
Proof.
  unfold scanImages.
  destruct (Op.isActive (currentOperation w 0%nat) operationId); cbn [negb].
  2: { intros [= <-]. by left. }
  assert (forall start,
    match scanLoop w operationId (stackSize (rev start)) (scanStart w start) with
    | None => None
    | Some (Aborted s) => Some (mkResult (trace s) Returned None)
    | Some (Finished s) =>
        if Op.isActive (currentOperation w (yields s)) operationId
        then Some (mkResult
                     (trace s ++ [Post (scan_complete (map_values (uniqueImages (found s))))])
                     Returned (Some (map_values (uniqueImages (found s)))))
        else Some (mkResult (trace s) Returned (Some (map_values (uniqueImages (found s)))))
    end = Some r ->
    (exists s, observed w operationId s /\ r = mkResult (trace s) Returned None) \/
    (exists s, observed w operationId s /\
       r = if Op.isActive (currentOperation w (yields s)) operationId
           then mkResult (trace s ++ [Post (scan_complete (map_values (uniqueImages (found s))))])
                         Returned (Some (map_values (uniqueImages (found s))))
           else mkResult (trace s) Returned (Some (map_values (uniqueImages (found s)))))) as main.
  { intros start.
    destruct (scanLoop _ _ _ _) as [[s|s]|] eqn:El; [| |discriminate].
    - apply scanLoop_observed in El; [|apply startingScan_observed].
      intros [= <-]. left. by exists s.
    - apply scanLoop_observed in El; [|apply startingScan_observed].
      intros Hr. right. exists s. split; [done|].
      destruct (Op.isActive _ _); by injection Hr as <-. }
  destruct scanMode.
  - destruct (startNodesOf page entire) as [|x rest]; intros H; right; right;
      [apply (main []) | apply (main (x :: rest))]; exact H.
  - destruct (startNodesOf page selected) as [|x rest] eqn:Estart.
    + intros [= <-]. right. by left.
    + intros H. right; right. apply (main (x :: rest)). exact H.
Qed.

End ScanCases.

Lemma capped_is_progress e : cappedProgress e -> isScanProgress e = true.
Proof. by destruct e as [[]|]. Qed.

Lemma capped_not_complete t :
  Forall cappedProgress t -> List.find isScanComplete t = None.
Proof.
  intros H. apply progress_not_complete.
  eapply Forall_impl; [exact H|]. apply capped_is_progress.
Qed.

(** X16. The messages of a scan: progress messages, each with a percentage
    of at most 95, then at most one completion message, which comes last;
    when it is posted the cache [foundImages] holds the list it carries. *)
Theorem scan_messages_shape
    (w : World) (page : PageNode) (scanMode : ScanMode) (operationId : Z) :
  exists r, scanImages w page scanMode operationId = Some r /\
    exists progress ending,
      r_trace r = progress ++ ending /\
      Forall cappedProgress progress /\
      (ending = [] \/
       exists imgs, ending = [Post (scan_complete imgs)] /\
                    r_foundImages r = Some imgs /\ r_completion r = Returned).
Proof.
  destruct (scanImages_spec w page scanMode operationId) as (r & Hr & _).
  exists r. split; [done|].
  apply scanImages_cases in Hr
    as [-> | [-> | [(s & (Hcap & _) & ->) | (s & (Hcap & _) & ->)]]].
  - exists [], []. by repeat split; [|left].
  - exists [startingScan], []. split; [done|]. split; [|by left].
    repeat constructor. simpl. unfold Qle. simpl. lia.
  - exists (trace s), []. rewrite app_nil_r. split; [done|]. split; [done | by left].
  - destruct (Op.isActive _ _).
    + eexists (trace s), _. split; [done|]. split; [done|]. right. by eexists.
    + exists (trace s), []. rewrite app_nil_r. split; [done|]. split; [done | by left].
Qed.

(** X17. A scan publishes only while its operation is current: when the
    completion message is posted, the operation was found current on
    entry and after each suspension of the scan, the last one included. *)
Theorem published_only_while_current
    (w : World) (page : PageNode) (scanMode : ScanMode) (operationId : Z) :
  exists r, scanImages w page scanMode operationId = Some r /\
    forall imgs, published r = Some imgs ->
      forall k, (k <= length (r_trace r) - 2)%nat ->
        Op.isActive (currentOperation w k) operationId = true.
Proof.
  destruct (scanImages_spec w page scanMode operationId) as (r & Hr & _).
  exists r. split; [done|]. intros imgs Hpub.
  apply scanImages_cases in Hr
    as [-> | [-> | [(s & (Hcap & _) & ->) | (s & (Hcap & Hlen & Hcur) & ->)]]].
  - discriminate.
  - discriminate.
  - unfold published in Hpub. simpl in Hpub. by rewrite capped_not_complete in Hpub.
  - destruct (Op.isActive (currentOperation w (yields s)) operationId) eqn:Hend.
    + simpl. rewrite length_app, Hlen. simpl. intros k Hk.
      destruct (decide (k = yields s)) as [->|]; [done|]. apply Hcur. lia.
    + unfold published in Hpub. simpl in Hpub. by rewrite capped_not_complete in Hpub.
Qed.

Lemma published_only_while_current_witness :
  exists r, scanImages quietWorld sharedPage entire 7 = Some r /\
    Op.isActive (currentOperation quietWorld 0%nat) 7 = true.
Proof.
  destruct (published_only_while_current quietWorld sharedPage entire 7)
    as (r & Hr & H).
  exists r. split; [exact Hr|].
  assert (published r = Some [mkFound (js "H1") (js "First") (js "Page")]) as Hpub.
  { vm_compute in Hr. injection Hr as <-. reflexivity. }
  apply (H _ Hpub). lia.
Defined.

(** ** The traversal *)

Section Traversal.

Lemma forest_app a b : forest (a ++ b) = forest a ++ forest b.
Proof. apply flat_map_app. Qed.

Lemma subtree_unfold (n : Located) :
  subtree (node n) (parents n) =
  n :: match childrenOf n with Some cs => forest cs | None => [] end.
Proof.
  destruct n as [[nm ty fl sk cs] ps]. unfold childrenOf. simpl. f_equal.
  destruct cs as [l|]; [|done].
  induction l as [|c l IH]; [done|]. simpl. by rewrite IH.
Qed.

Lemma forest_cons n st :
  forest (n :: st) =
  n :: match childrenOf n with Some cs => forest cs | None => [] end ++ forest st.
Proof. unfold forest at 1. simpl. by rewrite subtree_unfold. Qed.

(** The nodes of a chunk and the forest under the stack they leave are
    the forest under the chunk and the rest. *)
Lemma forest_expand chunk : forall rest,
  chunk ++ forest (expand chunk rest) ≡ₚ forest chunk ++ forest rest.
Proof.
  induction chunk as [|n chunk IH]; intros rest; [done|].
  cbn [expand]. rewrite forest_cons, <- !app_comm_cons. constructor.
  rewrite IH. destruct (childrenOf n) as [cs|]; [|done].
  rewrite forest_app, !app_assoc. f_equiv. apply Permutation_app_comm.
Qed.

Lemma traverse_forest : forall fuel st,
  (stackSize st <= fuel)%nat -> traverse fuel st ≡ₚ forest st.
Proof.
  induction fuel as [|fuel IH]; intros st Hfuel.
  - destruct st as [|x rest]; [done|].
    simpl in Hfuel. pose proof (stackSize_children x). lia.
  - destruct st as [|x rest]; [done|].
    rewrite traverse_cons. cbv zeta.
    set (k := Nat.min (length (x :: rest)) CONFIG.SCAN_CHUNK_SIZE).
    pose proof (stackSize_expand (take k (x :: rest)) (drop k (x :: rest))) as E.
    rewrite <- stackSize_app, take_drop in E.
    assert (1 <= length (take k (x :: rest)))%nat.
    { rewrite length_take. unfold k, CONFIG.SCAN_CHUNK_SIZE. simpl. lia. }
    rewrite IH by lia. rewrite forest_expand, <- forest_app. by rewrite take_drop.
Qed.

Lemma visit_order_forest startNodes : visitOrder startNodes ≡ₚ forest startNodes.
Proof.
  unfold visitOrder. rewrite traverse_forest by done.
  unfold forest. apply Permutation_flat_map. symmetry. apply Permutation_rev.
Qed.

End Traversal.

Section VisitCount.

Variable w : World.
Variable operationId : Z.

Lemma visitAll_stack mgr chunk : forall s s',
  visitAll mgr operationId chunk s = Some s' ->
  stack s' = expand chunk (stack s) /\
  scannedCount s' = scannedCount s + N.of_nat (length chunk).
Proof.
  induction chunk as [|n chunk IH]; intros s s'; simpl.
  - intros [= <-]. split; [done | lia].
  - unfold visit. destruct (checkNodeForImages mgr operationId n (found s)); [|discriminate].
    destruct (childrenOf n); intros [Hs Hc]%IH; cbn [stack scannedCount] in Hs, Hc;
      (split; [done | lia]).
Qed.

Lemma report_count s : scannedCount (report w s) = scannedCount s.
Proof. unfold report. by destruct (_ >? _)%Z. Qed.

(** A loop that runs to its end has emptied the stack and counted the
    nodes of the traversal. *)
Lemma scanLoop_count : forall fuel s s',
  scanLoop w operationId fuel s = Some (Finished s') ->
  stack s' = [] /\
  scannedCount s' = scannedCount s + N.of_nat (length (traverse fuel (stack s))).
Proof.
  induction fuel as [|fuel IH]; intros s s'.
  - simpl. destruct (stack s) eqn:Es; [|discriminate].
    intros [= <-]. split; [done | simpl; lia].
  - destruct (stack s) as [|x rest] eqn:Es.
    { rewrite scanLoop_nil by done. intros [= <-]. rewrite traverse_nil.
      split; [done | simpl; lia]. }
    rewrite (scanLoop_cons _ _ _ _ _ _ Es), traverse_cons, Es.
    destruct (Op.isActive _ _); cbn [negb]; [|discriminate].
    cbv zeta.
    destruct (visitAll _ _ _ _) as [s1|] eqn:Ev; [|discriminate].
    apply visitAll_stack in Ev as [Hs Hc]. cbn [stack scannedCount] in Hs, Hc.
    intros [Hend Hcount]%IH. split; [done|].
    rewrite Hcount, report_count, report_stack, Hc, Hs, length_app. lia.
Qed.

End VisitCount.

(** X18. While its operation stays current, the loop of [scanImages]
    processes every node under the start nodes exactly once: it runs until
    the stack is empty, [scannedCount] ends as the number of nodes of the
    start nodes' subtrees, the references registered are those of these
    nodes taken in an order that is a rearrangement of them, and the list
    built this way is the one the scan publishes. *)
Theorem visit_each_node_once
    (w : World) (page : PageNode) (scanMode : ScanMode) (operationId : Z) :
  (forall k, Op.isActive (currentOperation w k) operationId = true) ->
  (scanMode = selected -> selection page <> []) ->
  exists s' r,
    scanLoop w operationId (stackSize (rev (startNodesOf page scanMode)))
             (mkScan (mkFoundSt [] ∅) 0 (rev (startNodesOf page scanMode))
                     (N.of_nat (length (startNodesOf page scanMode)) * 5)
                     (Date_now w 0%nat) 1%nat 0%nat [startingScan]) =
    Some (Finished s') /\
    stack s' = [] /\
    scannedCount s' = N.of_nat (length (forest (startNodesOf page scanMode))) /\
    (exists order,
       order ≡ₚ forest (startNodesOf page scanMode) /\
       Registered (flat_map candidatesOf order) (map_values (uniqueImages (found s')))) /\
    scanImages w page scanMode operationId = Some r /\
    published r = Some (map_values (uniqueImages (found s'))).
Proof.
  intros Hact Hsel.
  set (start := startNodesOf page scanMode).
  set (s0 := mkScan _ _ _ _ _ _ _ _).
  destruct (scanLoop_inv w operationId (stackSize (rev start)) s0 [])
    as (ex & El & Hex); [done | apply Inv_empty | by repeat constructor |].
  destruct ex as [s'|s'].
  { destruct Hex as (_ & k & Hk). by rewrite Hact in Hk. }
  destruct Hex as ([Hreg _ _] & Ht).
  destruct (scanLoop_count _ _ _ _ _ El) as [Hstack Hcount].
  assert (scanImages w page scanMode operationId =
          Some (mkResult (trace s' ++ [Post (scan_complete (map_values (uniqueImages (found s'))))])
                         Returned (Some (map_values (uniqueImages (found s')))))) as Hscan.
  { unfold scanImages. rewrite Hact. cbn [negb]. fold start. cbv zeta.
    assert (match scanLoop w operationId (stackSize (rev start)) s0 with
            | None => None
            | Some (Aborted s) => Some (mkResult (trace s) Returned None)
            | Some (Finished s) =>
                if Op.isActive (currentOperation w (yields s)) operationId
                then Some (mkResult
                             (trace s ++ [Post (scan_complete (map_values (uniqueImages (found s))))])
                             Returned (Some (map_values (uniqueImages (found s)))))
                else Some (mkResult (trace s) Returned (Some (map_values (uniqueImages (found s)))))
            end =
            Some (mkResult (trace s' ++ [Post (scan_complete (map_values (uniqueImages (found s'))))])
                           Returned (Some (map_values (uniqueImages (found s')))))) as main.
    { by rewrite El, Hact. }
    destruct scanMode.
    - destruct start; exact main.
    - destruct start as [|x rest] eqn:Es; [|exact main].
      by destruct Hsel. }
  eexists s', _. split; [exact El|]. split; [done|]. split; [|split; [|split; [exact Hscan|]]].
  - rewrite Hcount. cbn [scannedCount s0]. rewrite N.add_0_l. f_equal.
    apply Permutation_length. apply (visit_order_forest start).
  - exists (visitOrder start). split; [apply visit_order_forest | exact Hreg].
  - unfold published. cbn [r_trace].
    by rewrite (find_app_None _ _ _ (progress_not_complete _ Ht)).
Qed.

Lemma visit_each_node_once_witness :
  exists s' r,
    scanLoop quietWorld 7 (stackSize (rev (startNodesOf heroPage entire)))
             (mkScan (mkFoundSt [] ∅) 0 (rev (startNodesOf heroPage entire))
                     (N.of_nat (length (startNodesOf heroPage entire)) * 5)
                     (Date_now quietWorld 0%nat) 1%nat 0%nat [startingScan]) =
    Some (Finished s') /\
    scannedCount s' = 5 /\
    scanImages quietWorld heroPage entire 7 = Some r /\
    published r = Some (map_values (uniqueImages (found s'))).
Proof.
  destruct (visit_each_node_once quietWorld heroPage entire 7)
    as (s' & r & El & _ & Hcount & _ & Hr & Hpub); [by intros k | discriminate |].
  exists s', r. split; [exact El|]. split; [exact Hcount|]. split; [exact Hr | exact Hpub].
Defined.

(** X19. A scan whose operation stays current misses no image: it
    publishes an entry for every image reference carried by a fill or a
    stroke of any node under the start nodes. *)
Theorem every_image_is_published
    (w : World) (page : PageNode) (scanMode : ScanMode) (operationId : Z) :
  (forall k, Op.isActive (currentOperation w k) operationId = true) ->
  (scanMode = selected -> selection page <> []) ->
  exists r imgs,
    scanImages w page scanMode operationId = Some r /\
    published r = Some imgs /\
    forall n h, n ∈ forest (startNodesOf page scanMode) -> h ∈ hashesOf n ->
      h ∈ hash <$> imgs.
Proof.
  intros Hact Hsel.
  destruct (scanImages_spec w page scanMode operationId) as (r & Hr & Hreg & Hpub).
  destruct (Hpub Hact Hsel) as [imgs Himgs].
  exists r, imgs. split; [done|]. split; [done|].
  intros n h Hn Hh. apply (Registered_hashes _ _ (Hreg _ Himgs)).
  apply list_elem_of_fmap. exists (h, n). split; [done|].
  unfold candidates. apply list_elem_of_In, in_flat_map. exists n. split.
  - apply list_elem_of_In. by rewrite visit_order_forest.
  - apply list_elem_of_In. unfold candidatesOf.
    apply list_elem_of_fmap. by exists h.
Qed.

Lemma every_image_is_published_witness :
  exists r imgs,
    scanImages quietWorld heroPage entire 7 = Some r /\
    published r = Some imgs /\
    js "H1" ∈ hash <$> imgs.
Proof.
  destruct (every_image_is_published quietWorld heroPage entire 7)
    as (r & imgs & Hr & Hpub & H); [by intros k | discriminate |].
  exists r, imgs. split; [exact Hr|]. split; [exact Hpub|].
  remember (forest (startNodesOf heroPage entire)) as f eqn:Ef.
  vm_compute in Ef.
  eapply H.
  - rewrite Ef. apply list_elem_of_further, list_elem_of_further, list_elem_of_here.
  - vm_compute. apply list_elem_of_here.
Defined.

Section ScanResults.

Lemma Registered_nil imgs : Registered [] imgs -> imgs = [].
Proof.
  intros H. remember [] as cs eqn:E.
  destruct H as [|cs ? ? ? _ _|cs ? ? ? ? _ _ _]; [done | by destruct cs..].
Qed.

Lemma candidate_hash_not_empty l h n : (h, n) ∈ candidates l -> h <> [].
Proof.
  unfold candidates.
  intros (m & _ & Hin%list_elem_of_In)%list_elem_of_In%in_flat_map.
  unfold candidatesOf in Hin.
  apply list_elem_of_fmap in Hin as (h' & [= <- <-] & Hh).
  assert (forall ps, h ∈ paintHashes ps -> h <> []) as Hp.
  { intros [ps|]; simpl; [|by intros ?%elem_of_nil].
    intros (p & _ & Hp)%list_elem_of_omap. unfold imageHashOf in Hp.
    destruct (strEq _ _); [|discriminate].
    destruct (imageHash p) as [[|c t]|]; try discriminate.
    injection Hp as <-. discriminate. }
  apply elem_of_app in Hh as [Hh|Hh]; by eapply Hp.
Qed.

Lemma numberToString_legal k : legal (numberToString k).
Proof.
  unfold numberToString. induction (N.to_uint k); simpl; by constructor.
Qed.

Lemma suffixed_legal b k : legal b -> legal (suffixed b k).
Proof.
  intros Hb. unfold suffixed. apply Forall_app. split; [done|].
  apply Forall_app. split; [by repeat constructor | apply numberToString_legal].
Qed.

Lemma flat_map_all_nil {A B} (f : A -> list B) l :
  (forall x, x ∈ l -> f x = []) -> flat_map f l = [].
Proof.
  induction l as [|x l IH]; intros H; [done|]. simpl.
  rewrite (H x) by apply list_elem_of_here. apply IH.
  intros y Hy. apply H. by apply list_elem_of_further.
Qed.

Lemma frameWalk_clean chain : clean (frameWalk chain).
Proof.
  assert (clean (js "Page")) as Hpage.
  { split; [vm_compute; repeat constructor | by eexists _, _ | vm_compute; lia]. }
  induction chain as [|p rest IH]; simpl; [done|].
  destruct (isContainerType (b_type p)); [apply sanitizeFileName_clean|].
  by destruct (strEq (b_type p) (js "PAGE")).
Qed.

End ScanResults.

(** X20. A scan whose operation stays current publishes the empty list
    when no node under the start nodes carries an image reference. *)
Theorem scan_without_images_publishes_nothing
    (w : World) (page : PageNode) (scanMode : ScanMode) (operationId : Z) :
  (forall k, Op.isActive (currentOperation w k) operationId = true) ->
  (scanMode = selected -> selection page <> []) ->
  (forall n, n ∈ forest (startNodesOf page scanMode) -> hashesOf n = []) ->
  exists r, scanImages w page scanMode operationId = Some r /\ published r = Some [].
Proof.
  intros Hact Hsel Hnone.
  destruct (scanImages_spec w page scanMode operationId) as (r & Hr & Hreg & Hpub).
  destruct (Hpub Hact Hsel) as [imgs Himgs].
  exists r. split; [done|].
  assert (candidates (startNodesOf page scanMode) = []) as Hc.
  { unfold candidates. apply flat_map_all_nil. intros n Hn.
    unfold candidatesOf. fold (hashesOf n). rewrite Hnone; [done|].
    by rewrite <- visit_order_forest. }
  rewrite Hc in Hreg. by rewrite (Registered_nil _ (Hreg _ Himgs)) in Himgs.
Qed.

Lemma scan_without_images_publishes_nothing_witness :
  exists r,
    scanImages quietWorld (mkPage (js "Page 1") [shape "TEXT" "Label" [solidPaint]] [])
               entire 7 = Some r /\
    published r = Some [].
Proof.
  apply scan_without_images_publishes_nothing; [by intros k | discriminate |].
  intros n Hn. vm_compute in Hn.
  apply list_elem_of_singleton in Hn as ->. reflexivity.
Defined.

(** X21. The published entries are listed in first-seen order: the entries
    before an entry are those of the hashes referenced before the first
    reference to its own hash. *)
Theorem results_in_first_seen_order
    (w : World) (page : PageNode) (scanMode : ScanMode) (operationId : Z) :
  exists r, scanImages w page scanMode operationId = Some r /\
    forall imgs, published r = Some imgs ->
      forall l1 e l2, imgs = l1 ++ e :: l2 ->
        exists pre n post,
          candidates (startNodesOf page scanMode) = pre ++ (hash e, n) :: post /\
          (hash e ∉ pre.*1) /\
          forall x, x ∈ pre.*1 <-> x ∈ hash <$> l1.
Proof.
  destruct (scanImages_spec w page scanMode operationId) as (r & Hr & Hreg & _).
  exists r. split; [done|]. intros imgs Hpub l1 e l2 E.
  destruct (Registered_split _ _ (Hreg _ Hpub) l1 e l2 E)
    as (cs1 & n & cs2 & Ec & Hreg1 & Hfirst & _).
  exists cs1, n, cs2. split; [done|]. split; [done|].
  by apply Registered_hashes.
Qed.

Lemma results_in_first_seen_order_witness :
  exists r pre n post,
    scanImages quietWorld collisionPage entire 7 = Some r /\
    candidates (startNodesOf collisionPage entire) = pre ++ (js "h2", n) :: post /\
    forall x, x ∈ pre.*1 <-> x ∈ [js "h1"].
Proof.
  destruct (results_in_first_seen_order quietWorld collisionPage entire 7)
    as (r & Hr & H).
  assert (published r = Some [mkFound (js "h1") (js "a") (js "Page");
                              mkFound (js "h2") (js "a_1") (js "Page");
                              mkFound (js "h3") (js "a_1_1") (js "Page")]) as Hpub.
  { vm_compute in Hr. injection Hr as <-. reflexivity. }
  destruct (H _ Hpub [mkFound (js "h1") (js "a") (js "Page")]
              (mkFound (js "h2") (js "a_1") (js "Page"))
              [mkFound (js "h3") (js "a_1_1") (js "Page")] eq_refl)
    as (pre & n & post & Ec & _ & Hpre).
  exists r, pre, n, post. split; [exact Hr|]. split; [exact Ec | exact Hpre].
Defined.

(** X22. Every published entry is usable as it is: its hash is not empty,
    its name is not empty and has no character of the illegal class, and
    its container name is not empty, has no such character and has at most
    255 code units. *)
Theorem published_entries_are_safe
    (w : World) (page : PageNode) (scanMode : ScanMode) (operationId : Z) :
  exists r, scanImages w page scanMode operationId = Some r /\
    forall imgs, published r = Some imgs ->
      forall e, e ∈ imgs ->
        hash e <> [] /\
        name e <> [] /\ legal (name e) /\
        frame e <> [] /\ legal (frame e) /\ (length (frame e) <= 255)%nat.
Proof.
  destruct (scanImages_spec w page scanMode operationId) as (r & Hr & Hreg & _).
  exists r. split; [done|]. intros imgs Hpub e (l1 & l2 & ->)%list_elem_of_split.
  destruct (Registered_split _ _ (Hreg _ Hpub) l1 e l2 eq_refl)
    as (cs1 & n & cs2 & Ec & _ & _ & _ & Hframe & Hname).
  pose proof (sanitizeFileName_clean (n_name (node n))) as [HL (c & t & Eb & _) _].
  assert (baseNameOf n = sanitizeFileName (n_name (node n))) as Ebase.
  { unfold baseNameOf. by rewrite Eb. }
  split.
  { apply (candidate_hash_not_empty (startNodesOf page scanMode) _ n).
    rewrite Ec. apply elem_of_app. right. apply list_elem_of_here. }
  assert (name e <> [] /\ legal (name e)) as [Hn1 Hn2].
  { destruct Hname as [[_ ->]|[_ (k & _ & -> & _)]]; rewrite Ebase.
    - split; [by rewrite Eb | done].
    - split; [|by apply suffixed_legal].
      unfold suffixed. rewrite Eb. discriminate. }
  split; [done|]. split; [done|].
  rewrite Hframe.
  destruct (frameWalk_clean (baseOf (node n) :: parents n)) as [H1 (c' & t' & E' & _) H3].
  split; [by rewrite E'|]. by split.
Qed.

Lemma published_entries_are_safe_witness :
  exists r, scanImages quietWorld heroPage entire 7 = Some r /\
    legal (js "Icon") /\ legal (js "Hero").
Proof.
  destruct (published_entries_are_safe quietWorld heroPage entire 7) as (r & Hr & H).
  exists r. split; [exact Hr|].
  assert (published r = Some [mkFound (js "H1") (js "Icon") (js "Hero")]) as Hpub.
  { vm_compute in Hr. injection Hr as <-. reflexivity. }
  destruct (H _ Hpub (mkFound (js "H1") (js "Icon") (js "Hero")))
    as (_ & _ & Hn & _ & Hf & _); [apply list_elem_of_here|].
  by split.
Defined.

(** X23. Registering a reference never changes or removes what is already
    registered: the map keeps its entries in place and gains at most one,
    keyed by the new hash, at the end; the set of names only grows; and a
    hash that is already a key changes nothing. *)
Theorem addUniqueImage_only_appends
    (mgr : OperationManager) (operationId : Z) (h : jsstring) (n : Located)
    (st st' : Found) :
  addUniqueImage mgr operationId h n st = Some st' ->
  (exists added, uniqueImages st' = uniqueImages st ++ added /\
     (added = [] \/ exists e, added = [(h, e)] /\ hash e = h)) /\
  existingNames st ⊆ existingNames st' /\
  (h ∈ (uniqueImages st).*1 -> st' = st).
Proof.
  unfold addUniqueImage.
  destruct (negb (Op.isActive mgr operationId)); simpl.
  { intros [= <-]. split; [exists []; rewrite app_nil_r; auto|]. done. }
  destruct (map_has (uniqueImages st) h) eqn:Hhas.
  { intros [= <-]. split; [exists []; rewrite app_nil_r; auto|]. done. }
  assert (h ∉ (uniqueImages st).*1) as Hfresh.
  { intros Hin%map_has_true. congruence. }
  destruct (resolveName _ _ _ _ _) as [u|]; [|discriminate].
  intros [= <-]. cbn [uniqueImages existingNames].
  rewrite (map_set_fresh _ _ _ Hfresh).
  split; [eexists; split; [done|]; right; by eexists|].
  split; [set_solver | done].
Qed.

Lemma addUniqueImage_only_appends_witness :
  exists st' added,
    addUniqueImage (mkOp 7 false) 7 (js "H1")
      (mkLoc (shape "RECTANGLE" "Icon" [imagePaint "H1"]) [])
      (mkFoundSt [(js "H0", mkFound (js "H0") (js "Icon") (js "Page"))] {[ js "Icon" ]})
    = Some st' /\
    uniqueImages st' = [(js "H0", mkFound (js "H0") (js "Icon") (js "Page"))] ++ added.
Proof.
  destruct (addUniqueImage (mkOp 7 false) 7 (js "H1")
              (mkLoc (shape "RECTANGLE" "Icon" [imagePaint "H1"]) [])
              (mkFoundSt [(js "H0", mkFound (js "H0") (js "Icon") (js "Page"))]
                         {[ js "Icon" ]})) as [st'|] eqn:E.
  - destruct (addUniqueImage_only_appends _ _ _ _ _ _ E) as [(added & Ea & _) _].
    exists st', added. split; [reflexivity | exact Ea].
  - vm_compute in E. discriminate.
Defined.

(** ** calculateETA *)

(** X24. When nothing is left to fetch the estimate is never stale: for
    [current = total] the label is the placeholder below
    [MIN_ETA_SAMPLES] items and [~0s] from there on, whatever time has
    elapsed (zero and negative clock differences included). *)
Theorem eta_when_finished (total : N) (elapsed : Z) :
  calculateETA total total elapsed =
  if total <? CONFIG.MIN_ETA_SAMPLES then js "Calculating..." else js "~0s".
Proof.
  unfold calculateETA. destruct (total <? CONFIG.MIN_ETA_SAMPLES); [done|].
  cbv zeta.
  set (remainingS := if (elapsed =? 0)%Z then 0%Q else _).
  assert (remainingS == 0)%Q as Hzero.
  { unfold remainingS. destruct (elapsed =? 0)%Z; [done|]. unfold Qdiv. ring. }
  destruct (Qle_bool 1 remainingS) eqn:E; [|done].
  apply Qle_bool_iff in E. rewrite Hzero in E. by vm_compute in E.
Qed.

(** X25. What [cancel-operation] does to a running download: the message
    is answered at once with [operation-cancelled] and leaves no token
    active; a download that finds this state at the head of one of its
    batches stops there, and its handler posts the error message of a
    cancellation after the batches already delivered. *)
Theorem cancel_message_stops_download
    (g : Globals) (uiReadyAt : nat -> bool) (fuel : nat)
    (now : Z) (mgr : OperationManager) (h : Host) (msg : DownloadMsg) (b : nat) :
  (exists k, (k <= fuel)%nat /\ uiReadyAt k = true) ->
  (S b * CONFIG.BATCH_SIZE < length (d_images msg))%nat ->
  operationAt h (at_batch (S b * CONFIG.BATCH_SIZE)) =
  operation (fst (onSyncMessage msg_cancel_operation g)) ->
  snd (onSyncMessage msg_cancel_operation g) = [Post operation_cancelled] /\
  exists batches,
    onDownloadImages uiReadyAt fuel now mgr h msg =
    Some (openingMessages msg ++ batches ++ [Post (error cancelledMessage)]) /\
    Forall (fun e => isBatchEvent e = true) batches /\
    (batchCycles batches <= S b)%nat.
Proof.
  intros (k & Hk & Hr) Hb Hop. split; [done|].
  unfold onDownloadImages.
  destruct (pollUiReady_ready uiReadyAt fuel 0 k) as [k' ->]; [lia | done |].
  unfold Op.start.
  destruct (fetch_cancelled_at_batch
              (startedHost h (mkOp now false) (d_images msg)) msg now (S b))
    as (batches & -> & Hall & Hcyc).
  - apply (started_is_current now mgr).
  - done.
  - unfold startedHost. cbn [operationAt].
    change (S b * CONFIG.BATCH_SIZE)%nat with (S (9 + b * CONFIG.BATCH_SIZE)) in *.
    destruct (d_images msg); rewrite Hop; reflexivity.
  - exists batches. split; [|done]. by rewrite <- app_assoc.
Qed.

Lemma cancel_message_stops_download_witness :
  exists batches,
    onDownloadImages (fun _ => true) 0 7 Op.init
      (mkHost (getImageByHash smallHost)
              (fun p => match p with
                        | at_batch (S _) =>
                            operation (fst (onSyncMessage msg_cancel_operation
                                              (mkGlobals true (mkOp 7 false))))
                        | _ => mkOp 7 false
                        end)
              (fun _ => 0%Z))
      twelveImages =
    Some (openingMessages twelveImages ++ batches ++ [Post (error cancelledMessage)]).
Proof.
  edestruct (cancel_message_stops_download (mkGlobals true (mkOp 7 false))
               (fun _ => true) 0 7 Op.init
               (mkHost (getImageByHash smallHost)
                  (fun p => match p with
                            | at_batch (S _) =>
                                operation (fst (onSyncMessage msg_cancel_operation
                                                  (mkGlobals true (mkOp 7 false))))
                            | _ => mkOp 7 false
                            end)
                  (fun _ => 0%Z))
               twelveImages 0)
    as (_ & batches & E & _).
  - exists 0%nat. split; [lia | reflexivity].
  - vm_compute. lia.
  - reflexivity.
  - exists batches. exact E.
Defined.
